(** * GeolocationWizard: a shallow embedding of the wizard component

    The development follows [src/components/GeolocationWizard.tsx].  The
    component is a React function component: its state lives in [useState]
    cells, every event handler reads the values captured by the render it
    was created in and queues updates with the setters, and React applies
    the queued updates before the next event is delivered.  The embedding
    keeps that structure:

    - [WizardState] is the tuple of [useState] cells;
    - a handler maps the state it captured to the list of updates it queues
      ([Update]), and [commit] applies the queue;
    - an asynchronous handler queues the updates that precede its first
      suspending [await] and leaves a [Task] behind; the task is resumed
      with the outcome of the network request;
    - [step] delivers one event to the mounted component, [enabled] says
      whether the rendered tree offers that event at all.

    Numbers.  JavaScript numbers are binary64 values.  The step counter, the
    zoom level and the radius only ever hold a few small integers (0 to 3,
    the literals 4, 14 and 15, the literal 1000), on which binary64
    arithmetic is exact; they are embedded as [Z].  The building rotation
    grows and shrinks without a guard, so it is embedded as [binary64], the
    IEEE 754 format with the operations of the Standard Library's
    [SpecFloat] (53 bits of precision, round to nearest, ties to even).
    Coordinates are embedded as [number]: an exact rational, or one of the
    special values NaN, Infinity, -Infinity; for them rounding to binary64
    and the sign of zero are not represented.

    Strings are [string]s of bytes; the characters the code inspects
    (digits, signs, the dot, the comma, white space) are ASCII. *)

From Stdlib Require Import ZArith QArith Qabs Qround String Ascii List Bool Lia
  DecimalString SpecFloat.
Import ListNotations.

Local Open Scope string_scope.
Local Open Scope Z_scope.

(** ** JavaScript numbers (coordinates) *)

Inductive number : Type :=
| NaN
| Infinity (negative : bool)
| Finite (q : Q).

(** The decimal literal [m / 10^k], in lowest terms. *)
Definition decimal (m : Z) (k : nat) : number :=
  Finite (Qred (inject_Z m / inject_Z (10 ^ Z.of_nat k))).

Definition ofZ (z : Z) : number := Finite (inject_Z z).

(** [isNaN(x)] on a number. *)
Definition isNaN (x : number) : bool :=
  match x with NaN => true | _ => false end.

(** [x <= y]; every comparison with NaN is false. *)
Definition number_le (x y : number) : bool :=
  match x, y with
  | NaN, _ | _, NaN => false
  | Infinity true, _ => true
  | _, Infinity false => true
  | Infinity false, _ => false
  | _, Infinity true => false
  | Finite p, Finite q => Qle_bool p q
  end.

(** [x >= y]. *)
Definition number_ge (x y : number) : bool := number_le y x.

(** ** Binary64 numbers (the building rotation)

    [SFadd] and [SFsub] at precision 53 and maximal exponent 1024 are the
    binary64 [+] and [-]: the exact sum or difference, rounded to nearest
    with ties to even. *)

Definition binary64 : Type := spec_float.

Definition binary64_add : binary64 -> binary64 -> binary64 := SFadd 53 1024.

Definition binary64_sub : binary64 -> binary64 -> binary64 := SFsub 53 1024.

(** The value of an integer literal: the binary64 number nearest to it. *)
Definition binary64_of_Z (z : Z) : binary64 :=
  binary_normalize 53 1024 z 0 false.

(** The integer that a binary64 number is, if it is one. *)
Definition integer_value (x : binary64) : option Z :=
  match x with
  | S754_zero _ => Some 0
  | S754_finite s m e =>
      let v := if s then Zneg m else Zpos m in
      if 0 <=? e then Some (v * 2 ^ e)
      else if Zpos m mod 2 ^ (- e) =? 0 then Some (v / 2 ^ (- e))
      else None
  | S754_infinity _ | S754_nan => None
  end.

(** A mantissa with nothing shifted out of it. *)
Definition exact_record (p : positive) : shr_record :=
  {| shr_m := Zpos p; shr_r := false; shr_s := false |}.

(** A mantissa shifted left by a non-negative number of bits. *)
Definition shift_left (q : positive) (k : Z) : positive :=
  match k with
  | Zpos n => Pos.iter xO q n
  | _ => q
  end.

(** The exponent and the mantissa of the binary64 number that a positive
    integer below 2^53 is: the mantissa has exactly 53 bits. *)
Definition canonical_exponent (q : positive) : Z :=
  Zpos (digits2_pos q) - 53.

Definition canonical_mantissa_of (q : positive) : positive :=
  shift_left q (- canonical_exponent q).

(** ** Number to string: [Number.prototype.toFixed] *)

Definition Z_to_string (n : Z) : string :=
  NilZero.string_of_uint (N.to_uint (Z.to_N n)).

Fixpoint zeros (k : nat) : string :=
  match k with
  | O => ""
  | S k' => String "0" (zeros k')
  end.

Definition pow10 (k : nat) : Q := inject_Z (10 ^ Z.of_nat k).

(** The integer nearest to [q >= 0], the larger one on a tie. *)
Definition round_half_up (q : Q) : Z := Qfloor (q + (1 # 2)).

Fixpoint strip_trailing_zeros_rev (rev_digits : list ascii) : list ascii :=
  match rev_digits with
  | "0"%char :: r => strip_trailing_zeros_rev r
  | _ => rev_digits
  end.

Definition strip_trailing_zeros (s : string) : string :=
  string_of_list_ascii
    (rev (strip_trailing_zeros_rev (rev (list_ascii_of_string s)))).

(** Exponent notation for a magnitude of at least 10^21, where [toFixed]
    defers to [Number::toString].  The digits are those of the value
    rounded to 17 significant digits (binary64 needs no more). *)
Definition exponent_string (a : Q) : string :=
  let n := round_half_up a in
  let len := String.length (Z_to_string n) in
  let s17 := round_half_up (inject_Z n / pow10 (len - 17)) in
  let '(sig, e) :=
    if (10 ^ 17 <=? s17)%Z then (10 ^ 16, len) else (s17, (len - 1)%nat) in
  let ds := strip_trailing_zeros (Z_to_string sig) in
  match ds with
  | String d "" => String d "" ++ "e+" ++ Z_to_string (Z.of_nat e)
  | String d more => String d "" ++ "." ++ more ++ "e+"
                       ++ Z_to_string (Z.of_nat e)
  | "" => ""
  end.

(** [x.toFixed(f)] (ECMA-262, Number.prototype.toFixed). *)
Definition toFixed (x : number) (f : nat) : string :=
  match x with
  | NaN => "NaN"
  | Infinity true => "-Infinity"
  | Infinity false => "Infinity"
  | Finite q =>
      let sign := if Qle_bool 0 q then "" else "-" in
      let a := Qabs q in
      if Qle_bool (inject_Z (10 ^ 21)) a then sign ++ exponent_string a
      else
        let n := round_half_up (a * pow10 f) in
        let m0 := Z_to_string n in
        let m := zeros (S f - String.length m0) ++ m0 in
        let k := String.length m in
        sign ++
        (if Nat.eqb f 0 then m
         else substring 0 (k - f) m ++ "." ++ substring (k - f) f m)
  end.

(** ** String to number: [parseFloat] and [Number] *)

Definition is_digit (c : ascii) : bool :=
  let n := nat_of_ascii c in (48 <=? n)%nat && (n <=? 57)%nat.

Definition digit_value (c : ascii) : Z := Z.of_nat (nat_of_ascii c) - 48.

(** The ASCII members of StrWhiteSpaceChar: TAB, LF, VT, FF, CR, SP. *)
Definition is_whitespace (c : ascii) : bool :=
  let n := nat_of_ascii c in
  ((9 <=? n)%nat && (n <=? 13)%nat) || (n =? 32)%nat.

Fixpoint trimStart (s : string) : string :=
  match s with
  | String c s' => if is_whitespace c then trimStart s' else s
  | "" => ""
  end.

Definition string_rev (s : string) : string :=
  string_of_list_ascii (rev (list_ascii_of_string s)).

Definition trim (s : string) : string :=
  string_rev (trimStart (string_rev (trimStart s))).

(** The longest prefix of digits, and what follows it. *)
Fixpoint span_digits (s : string) : string * string :=
  match s with
  | String c s' =>
      if is_digit c then
        let (d, r) := span_digits s' in (String c d, r)
      else ("", s)
  | "" => ("", "")
  end.

Fixpoint digits_to_Z (acc : Z) (ds : string) : Z :=
  match ds with
  | "" => acc
  | String c ds' => digits_to_Z (10 * acc + digit_value c) ds'
  end.

(** An optional sign at the head of [s]: whether it is a minus, and what
    follows it. *)
Definition scan_sign (s : string) : bool * string :=
  match s with
  | String c r =>
      if Ascii.eqb c "-" then (true, r)
      else if Ascii.eqb c "+" then (false, r)
      else (false, s)
  | "" => (false, s)
  end.

(** ExponentPart, when one is present at the head of [s]: its value and
    what follows it.  An "e" without digits is not part of the literal. *)
Definition scan_exponent (s : string) : Z * string :=
  match s with
  | String c r =>
      if Ascii.eqb c "e" || Ascii.eqb c "E" then
        let (neg, r1) := scan_sign r in
        let (ed, r2) := span_digits r1 in
        if String.eqb ed "" then (0, s)
        else ((if neg then - digits_to_Z 0 ed else digits_to_Z 0 ed), r2)
      else (0, s)
  | "" => (0, s)
  end.

(** The longest prefix that is a StrUnsignedDecimalLiteral other than
    Infinity: its exact value and the rest of the string. *)
Definition scan_unsigned_decimal (s : string) : option (Q * string) :=
  let (ip, r1) := span_digits s in
  let fraction :=
    match r1 with
    | String "." r1' =>
        let (fp, r2) := span_digits r1' in
        if String.eqb ip "" && String.eqb fp "" then None else Some (fp, r2)
    | _ => if String.eqb ip "" then None else Some ("", r1)
    end in
  match fraction with
  | None => None
  | Some (fp, r2) =>
      let (e, r3) := scan_exponent r2 in
      let mantissa := digits_to_Z 0 (ip ++ fp) in
      Some (Qred (inject_Z mantissa
                  * Qpower (inject_Z 10) (e - Z.of_nat (String.length fp))),
            r3)
  end.

Definition neg_number (x : number) : number :=
  match x with
  | NaN => NaN
  | Infinity b => Infinity (negb b)
  | Finite q => Finite (Qred (- q))
  end.

(** The longest prefix that is a StrDecimalLiteral. *)
Definition scan_decimal (s : string) : option (number * string) :=
  let (neg, r) := scan_sign s in
  let unsigned :=
    if String.prefix "Infinity" r
    then Some (Infinity false, substring 8 (String.length r - 8) r)
    else match scan_unsigned_decimal r with
         | Some (q, rest) => Some (Finite q, rest)
         | None => None
         end in
  match unsigned with
  | Some (v, rest) => Some ((if neg then neg_number v else v), rest)
  | None => None
  end.

(** [parseFloat(s)]: the value of the longest literal prefix of the
    string without its leading white space, NaN when there is none. *)
Definition parseFloat (s : string) : number :=
  match scan_decimal (trimStart s) with
  | Some (v, _) => v
  | None => NaN
  end.

(** Digits of a NonDecimalIntegerLiteral in the given radix. *)
Definition radix_digit (radix : Z) (c : ascii) : option Z :=
  let n := Z.of_nat (nat_of_ascii c) in
  let v :=
    if ((48 <=? n) && (n <=? 57))%Z then n - 48
    else if ((97 <=? n) && (n <=? 102))%Z then n - 87
    else if ((65 <=? n) && (n <=? 70))%Z then n - 55
    else 16 in
  if (v <? radix)%Z then Some v else None.

Fixpoint radix_digits_to_Z (radix acc : Z) (ds : string) : option Z :=
  match ds with
  | "" => Some acc
  | String c ds' =>
      match radix_digit radix c with
      | Some v => radix_digits_to_Z radix (radix * acc + v) ds'
      | None => None
      end
  end.

Definition non_decimal_radix (s : string) : option (Z * string) :=
  match s with
  | String z (String c r) =>
      if negb (Ascii.eqb z "0") then None
      else if Ascii.eqb c "x" || Ascii.eqb c "X" then Some (16, r)
      else if Ascii.eqb c "o" || Ascii.eqb c "O" then Some (8, r)
      else if Ascii.eqb c "b" || Ascii.eqb c "B" then Some (2, r)
      else None
  | _ => None
  end.

(** [Number(s)] on a string (StringToNumber): the trimmed string is empty
    (0), a whole StrNumericLiteral, or the result is NaN. *)
Definition Number_ (s : string) : number :=
  let t := trim s in
  if String.eqb t "" then Finite 0
  else match non_decimal_radix t with
       | Some (radix, ds) =>
           if String.eqb ds "" then NaN
           else match radix_digits_to_Z radix 0 ds with
                | Some z => Finite (inject_Z z)
                | None => NaN
                end
       | None =>
           match scan_decimal t with
           | Some (v, "") => v
           | _ => NaN
           end
       end.

(** ** Regular expressions

    The one pattern of the code, [/^-?\d+\.?\d*,-?\d+\.?\d*$/], is anchored
    at both ends and has no flags, so [test] asks whether the whole string
    belongs to the language of the pattern.  Membership is decided with
    derivatives. *)

Inductive regex : Type :=
| Void
| Eps
| Chr (c : ascii)
| Digit
| Seq (r1 r2 : regex)
| Alt (r1 r2 : regex)
| Star (r : regex).

(** [r?] and [r+]. *)
Definition Opt (r : regex) : regex := Alt r Eps.
Definition Plus (r : regex) : regex := Seq r (Star r).

Fixpoint nullable (r : regex) : bool :=
  match r with
  | Void | Chr _ | Digit => false
  | Eps | Star _ => true
  | Seq r1 r2 => nullable r1 && nullable r2
  | Alt r1 r2 => nullable r1 || nullable r2
  end.

Fixpoint deriv (a : ascii) (r : regex) : regex :=
  match r with
  | Void | Eps => Void
  | Chr c => if Ascii.eqb a c then Eps else Void
  | Digit => if is_digit a then Eps else Void
  | Seq r1 r2 =>
      if nullable r1 then Alt (Seq (deriv a r1) r2) (deriv a r2)
      else Seq (deriv a r1) r2
  | Alt r1 r2 => Alt (deriv a r1) (deriv a r2)
  | Star r1 => Seq (deriv a r1) (Star r1)
  end.

Fixpoint matches (r : regex) (s : string) : bool :=
  match s with
  | "" => nullable r
  | String a s' => matches (deriv a r) s'
  end.

(** [-?\d+\.?\d*] *)
Definition coordinatePart : regex :=
  Seq (Opt (Chr "-")) (Seq (Plus Digit) (Seq (Opt (Chr ".")) (Star Digit))).

(** The body of [coordPattern], between [^] and [$] (lines 471 and 512). *)
Definition coordPattern : regex :=
  Seq coordinatePart (Seq (Chr ",") coordinatePart).

(** [coordPattern.test(searchTerm)] *)
Definition coordPattern_test (searchTerm : string) : bool :=
  matches coordPattern searchTerm.

(** The language of a pattern: the strings that it matches as a whole. *)
Inductive lang : regex -> string -> Prop :=
| lang_eps : lang Eps ""
| lang_chr (c : ascii) : lang (Chr c) (String c "")
| lang_digit (c : ascii) : is_digit c = true -> lang Digit (String c "")
| lang_seq (r1 r2 : regex) (s1 s2 : string) :
    lang r1 s1 -> lang r2 s2 -> lang (Seq r1 r2) (s1 ++ s2)
| lang_alt_l (r1 r2 : regex) (s : string) :
    lang r1 s -> lang (Alt r1 r2) s
| lang_alt_r (r1 r2 : regex) (s : string) :
    lang r2 s -> lang (Alt r1 r2) s
| lang_star_nil (r : regex) : lang (Star r) ""
| lang_star_cons (r : regex) (s1 s2 : string) :
    lang r s1 -> lang (Star r) s2 -> lang (Star r) (s1 ++ s2).

Fixpoint string_forall (p : ascii -> bool) (s : string) : bool :=
  match s with
  | "" => true
  | String c s' => p c && string_forall p s'
  end.

(** The characters a coordinate may be written with. *)
Definition coordinate_char (c : ascii) : bool :=
  is_digit c || Ascii.eqb c "-" || Ascii.eqb c ".".

(** [s.split(sep)] for a one-character separator. *)
Fixpoint split (sep : ascii) (s : string) : list string :=
  match s with
  | "" => [""]
  | String c s' =>
      if Ascii.eqb c sep then "" :: split sep s'
      else match split sep s' with
           | h :: t => String c h :: t
           | [] => [String c ""]
           end
  end.

(** ** JavaScript values that cross the network boundary

    [response.json()] yields an untyped value ([any]); the code reads one
    property of it and hands the result on as the address. *)

#[local] Unset Elimination Schemes.
Inductive JSValue : Type :=
| VUndefined
| VNull
| VBool (b : bool)
| VNumber (n : number)
| VString (s : string)
| VArray (items : list JSValue)
| VObject (props : list (string * JSValue)).
#[local] Set Elimination Schemes.

(** ToBoolean. *)
Definition truthy (v : JSValue) : bool :=
  match v with
  | VUndefined | VNull => false
  | VBool b => b
  | VNumber NaN => false
  | VNumber (Infinity _) => true
  | VNumber (Finite q) => negb (Qeq_bool q 0)
  | VString s => negb (String.eqb s "")
  | VArray _ | VObject _ => true
  end.

(** ** The wizard's data model *)

(** A coordinate pair: the tuple [[lat, lng]] of the state cells. *)
Definition Coord : Type := (number * number)%type.

(** Leaflet's [L.LatLng], as delivered by map clicks and marker drags. *)
Record LatLng : Type := { lat : number; lng : number }.

Inductive InteractionMode : Type := drag | center_mode.

Definition InteractionMode_eqb (a b : InteractionMode) : bool :=
  match a, b with
  | drag, drag | center_mode, center_mode => true
  | _, _ => false
  end.

Record ProjectExtent : Type := { center : option Coord; radius : Z }.

Record WizardResult : Type := {
  r_projectLocation : option Coord;
  r_projectExtent : ProjectExtent;
  r_buildingLocation : option Coord;
  r_buildingRotation : binary64;
  r_interactionMode : InteractionMode
}.

(** The [useState] cells of [GeolocationWizard]. *)
Record WizardState : Type := {
  currentStep : Z;
  interactionMode : InteractionMode;
  mapCenter : Coord;
  mapZoom : Z;
  projectLocation : option Coord;
  projectExtent : ProjectExtent;
  buildingLocation : option Coord;
  buildingRotation : binary64;
  searchAddress : JSValue
}.

(** The initial values passed to [useState] (lines 451-459). *)
Definition initialState : WizardState := {|
  currentStep := 0;
  interactionMode := drag;
  mapCenter := (decimal 398283 4, decimal (-985795) 4);
  mapZoom := 4;
  projectLocation := None;
  projectExtent := {| center := None; radius := 1000 |};
  buildingLocation := None;
  buildingRotation := binary64_of_Z 0;
  searchAddress := VString ""
|}.

(** [steps.length]: the array literal [steps] has three entries. *)
Definition steps_length : Z := 3.

(** ** Queued state updates *)

Definition Update : Type := WizardState -> WizardState.

Definition setCurrentStep (v : Z) : Update := fun s =>
  {| currentStep := v; interactionMode := interactionMode s;
     mapCenter := mapCenter s; mapZoom := mapZoom s;
     projectLocation := projectLocation s; projectExtent := projectExtent s;
     buildingLocation := buildingLocation s;
     buildingRotation := buildingRotation s;
     searchAddress := searchAddress s |}.

Definition setInteractionMode (v : InteractionMode) : Update := fun s =>
  {| currentStep := currentStep s; interactionMode := v;
     mapCenter := mapCenter s; mapZoom := mapZoom s;
     projectLocation := projectLocation s; projectExtent := projectExtent s;
     buildingLocation := buildingLocation s;
     buildingRotation := buildingRotation s;
     searchAddress := searchAddress s |}.

Definition setMapCenter (v : Coord) : Update := fun s =>
  {| currentStep := currentStep s; interactionMode := interactionMode s;
     mapCenter := v; mapZoom := mapZoom s;
     projectLocation := projectLocation s; projectExtent := projectExtent s;
     buildingLocation := buildingLocation s;
     buildingRotation := buildingRotation s;
     searchAddress := searchAddress s |}.

Definition setMapZoom (v : Z) : Update := fun s =>
  {| currentStep := currentStep s; interactionMode := interactionMode s;
     mapCenter := mapCenter s; mapZoom := v;
     projectLocation := projectLocation s; projectExtent := projectExtent s;
     buildingLocation := buildingLocation s;
     buildingRotation := buildingRotation s;
     searchAddress := searchAddress s |}.

Definition setProjectLocation (v : option Coord) : Update := fun s =>
  {| currentStep := currentStep s; interactionMode := interactionMode s;
     mapCenter := mapCenter s; mapZoom := mapZoom s;
     projectLocation := v; projectExtent := projectExtent s;
     buildingLocation := buildingLocation s;
     buildingRotation := buildingRotation s;
     searchAddress := searchAddress s |}.

(** [setProjectExtent] is called both with a value and with an updater
    function of the previous value (line 573); the updater form covers
    both. *)
Definition setProjectExtent (f : ProjectExtent -> ProjectExtent) : Update :=
  fun s =>
  {| currentStep := currentStep s; interactionMode := interactionMode s;
     mapCenter := mapCenter s; mapZoom := mapZoom s;
     projectLocation := projectLocation s;
     projectExtent := f (projectExtent s);
     buildingLocation := buildingLocation s;
     buildingRotation := buildingRotation s;
     searchAddress := searchAddress s |}.

Definition setBuildingLocation (v : option Coord) : Update := fun s =>
  {| currentStep := currentStep s; interactionMode := interactionMode s;
     mapCenter := mapCenter s; mapZoom := mapZoom s;
     projectLocation := projectLocation s; projectExtent := projectExtent s;
     buildingLocation := v;
     buildingRotation := buildingRotation s;
     searchAddress := searchAddress s |}.

Definition setBuildingRotation (v : binary64) : Update := fun s =>
  {| currentStep := currentStep s; interactionMode := interactionMode s;
     mapCenter := mapCenter s; mapZoom := mapZoom s;
     projectLocation := projectLocation s; projectExtent := projectExtent s;
     buildingLocation := buildingLocation s;
     buildingRotation := v;
     searchAddress := searchAddress s |}.

Definition setSearchAddress (v : JSValue) : Update := fun s =>
  {| currentStep := currentStep s; interactionMode := interactionMode s;
     mapCenter := mapCenter s; mapZoom := mapZoom s;
     projectLocation := projectLocation s; projectExtent := projectExtent s;
     buildingLocation := buildingLocation s;
     buildingRotation := buildingRotation s;
     searchAddress := v |}.

(** React applies the queued updates in the order they were queued. *)
Definition commit (us : list Update) (s : WizardState) : WizardState :=
  fold_left (fun st u => u st) us s.


(** ** Completions: a value, or a thrown error *)

Inductive JSError : Type :=
| NetworkError
| SyntaxError
| TypeError.

Inductive Completion (A : Type) : Type :=
| Normal (a : A)
| Throw (e : JSError).
Arguments Normal {A} a.
Arguments Throw {A} e.

Definition bind {A B : Type} (c : Completion A) (k : A -> Completion B)
  : Completion B :=
  match c with
  | Normal a => k a
  | Throw e => Throw e
  end.

Notation "x <- c ;; k" := (bind c (fun x => k))
  (at level 61, c at next level, right associativity).

(** [try { body } catch (error) { handler }] where the handler itself
    completes normally. *)
Definition try_catch {A : Type} (body : Completion A) (handler : JSError -> A)
  : Completion A :=
  match body with
  | Normal a => Normal a
  | Throw e => Normal (handler e)
  end.

(** ** Geocoding *)

(** The destructured result of [geocodeLocation]: [{ lat, lng }]. *)
Definition nyc : LatLng :=
  {| lat := decimal 407128 4; lng := decimal (-740060) 4 |}.

(** [geocodeLocation] (lines 469-480).  The function awaits nothing and
    calls no service; its promise is already resolved when it returns.
    The array pattern [[lat, lng]] binds the first two elements of the
    mapped array; a missing element would bind [undefined], which the
    embedding writes NaN (the pattern guarantees two elements, see
    [split_coordPattern]). *)
Definition geocodeLocation (searchTerm : string) : LatLng :=
  if coordPattern_test searchTerm then
    match map Number_ (split "," searchTerm) with
    | la :: ln :: _ => {| lat := la; lng := ln |}
    | [la] => {| lat := la; lng := NaN |}
    | [] => {| lat := NaN; lng := NaN |}
    end
  else nyc.

(** What the network request of [reverseGeocode] can do: [fetch] rejects,
    or it resolves to a response with its [ok] flag and the completion of
    [response.json()]. *)
Inductive FetchOutcome : Type :=
| FetchRejects (e : JSError)
| FetchResponds (ok : bool) (json : Completion JSValue).

Fixpoint lookup_property (key : string) (props : list (string * JSValue))
  : JSValue :=
  match props with
  | [] => VUndefined
  | (k, v) :: rest => if String.eqb k key then v else lookup_property key rest
  end.

(** [data.display_name]: reading a property of [null] or [undefined]
    throws; a primitive or an array has no such property. *)
Definition get_display_name (data : JSValue) : Completion JSValue :=
  match data with
  | VUndefined | VNull => Throw TypeError
  | VObject props => Normal (lookup_property "display_name" props)
  | _ => Normal VUndefined
  end.

(** The fallback text: the template literal of lines 492, 499, 543,
    569 and 589. *)
Definition coordinateText (la ln : number) : string :=
  toFixed la 6 ++ ", " ++ toFixed ln 6.

(** [a || b] *)
Definition js_or (a b : JSValue) : JSValue := if truthy a then a else b.

(** [reverseGeocode] (lines 483-500), given what the request does.  The
    [try] block either returns ([Some]) or falls through ([None]); a throw
    inside it is caught and logged, and control reaches the fallback
    [return] after the block. *)
Definition reverseGeocode (outcome : FetchOutcome) (la ln : number)
  : Completion JSValue :=
  attempt <-
    try_catch
      (match outcome with
       | FetchRejects e => Throw e
       | FetchResponds ok json =>
           if ok then
             data <- json ;;
             name <- get_display_name data ;;
             Normal (Some (js_or name (VString (coordinateText la ln))))
           else Normal None
       end)
      (fun _ => None) ;;
  match attempt with
  | Some address => Normal address
  | None => Normal (VString (coordinateText la ln))
  end.

(** ** Event handlers of [GeolocationWizard] *)

(** An asynchronous handler suspended at [await reverseGeocode(lat, lng)]
    inside a [try]; [onThrow] is the address its [catch] block would set. *)
Inductive Task : Type :=
| AwaitReverseGeocode (la ln : number) (onThrow : JSValue).

(** The rest of the handler, run when the request settles. *)
Definition resume (t : Task) (outcome : FetchOutcome) : list Update :=
  match t with
  | AwaitReverseGeocode la ln onThrow =>
      match reverseGeocode outcome la ln with
      | Normal address => [setSearchAddress address]
      | Throw _ => [setSearchAddress onThrow]
      end
  end.

Definition when (b : bool) (us : list Update) : list Update :=
  if b then us else [].

Definition isSome {A : Type} (o : option A) : bool :=
  match o with Some _ => true | None => false end.

(** [handleSearch] (lines 502-528).  Nothing inside the outer [try] throws
    ([geocodeLocation] is total and the setters only queue), so its
    [catch] is not represented; the inner [catch] is the [onThrow] of the
    task.  The updates that follow [await geocodeLocation(...)] run in the
    same turn of the event loop as the handler, on the captured state. *)
Definition handleSearch (s : WizardState) (searchTerm : string)
  : list Update * option Task :=
  let location := geocodeLocation searchTerm in
  let p := (lat location, lng location) in
  if currentStep s =? 0 then
    if coordPattern_test searchTerm then
      ([setMapCenter p; setMapZoom 15; setProjectLocation (Some p);
        setSearchAddress (VString searchTerm)], None)
    else
      ([setMapCenter p; setMapZoom 15; setProjectLocation (Some p)],
       Some (AwaitReverseGeocode (lat location) (lng location)
               (VString searchTerm)))
  else ([setMapCenter p; setMapZoom 15], None).

(** [handleMapClick] (lines 530-556). *)
Definition handleMapClick (s : WizardState) (latlng : LatLng)
  : list Update * option Task :=
  let p := (lat latlng, lng latlng) in
  let recentre :=
    when (InteractionMode_eqb (interactionMode s) center_mode)
         [setMapCenter p] in
  if currentStep s =? 0 then
    (setProjectLocation (Some p) :: recentre,
     Some (AwaitReverseGeocode (lat latlng) (lng latlng)
             (VString (coordinateText (lat latlng) (lng latlng)))))
  else if currentStep s =? 1 then
    (setProjectExtent (fun _ => {| center := Some p; radius := 1000 |})
       :: recentre, None)
  else if currentStep s =? 2 then
    (setBuildingLocation (Some p) :: recentre, None)
  else ([], None).

Inductive MarkerType : Type := project | extent | building.

(** [handleMarkerDrag] (lines 558-577). *)
Definition handleMarkerDrag (s : WizardState) (latlng : LatLng)
  (type : MarkerType) : list Update * option Task :=
  let p := (lat latlng, lng latlng) in
  match type with
  | project =>
      ([setProjectLocation (Some p)],
       if currentStep s =? 0 then
         Some (AwaitReverseGeocode (lat latlng) (lng latlng)
                 (VString (coordinateText (lat latlng) (lng latlng))))
       else None)
  | extent =>
      ([setProjectExtent
          (fun prev => {| center := Some p; radius := radius prev |})],
       None)
  | building => ([setBuildingLocation (Some p)], None)
  end.

(** [handleCoordinateChange] (lines 579-591). *)
Definition handleCoordinateChange (la ln : number)
  : list Update * option Task :=
  ([setProjectLocation (Some (la, ln)); setMapCenter (la, ln)],
   Some (AwaitReverseGeocode la ln (VString (coordinateText la ln)))).

(** [canProceed] (lines 593-597). *)
Definition canProceed (s : WizardState) : bool :=
  if currentStep s =? 0 then isSome (projectLocation s)
  else if currentStep s =? 1 then isSome (center (projectExtent s))
  else true.

(** The object literal built on the last step (lines 614-620). *)
Definition result_of (s : WizardState) : WizardResult :=
  {| r_projectLocation := projectLocation s;
     r_projectExtent := projectExtent s;
     r_buildingLocation := buildingLocation s;
     r_buildingRotation := buildingRotation s;
     r_interactionMode := interactionMode s |}.

(** [handleNext] (lines 599-625): the queued updates and, on the last
    step, the result handed to the [onComplete] prop.  The prop is
    optional; [onComplete] says whether the parent supplied it. *)
Definition handleNext (onComplete : bool) (s : WizardState)
  : list Update * option WizardResult :=
  if currentStep s <? steps_length - 1 then
    (setCurrentStep (currentStep s + 1) ::
     match projectLocation s with
     | Some p =>
         when (currentStep s =? 0)
           ([setMapCenter p; setMapZoom 14] ++
            when (currentStep s + 1 =? 1)
              [setProjectExtent
                 (fun _ => {| center := Some p; radius := 1000 |})])%list
     | None => []
     end,
     None)
  else ([], if onComplete then Some (result_of s) else None).

(** [handlePrevious] (lines 627-631). *)
Definition handlePrevious (s : WizardState) : list Update :=
  when (0 <? currentStep s) [setCurrentStep (currentStep s - 1)].

(** ** Child components *)

(** [BuildingRotationControl] (lines 232-263): rendered only when
    [visible]; its two buttons call [onRotationChange] with the [rotation]
    prop minus or plus 15. *)
Definition rotationControl_visible (s : WizardState) : bool :=
  (currentStep s =? 2) && isSome (buildingLocation s).

Definition rotateLeft_click (rotation : binary64)
  (onRotationChange : binary64 -> Update) : list Update :=
  [onRotationChange (binary64_sub rotation (binary64_of_Z 15))].

Definition rotateRight_click (rotation : binary64)
  (onRotationChange : binary64 -> Update) : list Update :=
  [onRotationChange (binary64_add rotation (binary64_of_Z 15))].

(** [CoordinateTooltip]'s input handlers (lines 330-346).  Each returns
    the new text of its input box and the arguments of the call to
    [onPositionChange], if it makes one. *)
Definition handleLatChange (position : Coord) (value : string)
  : string * option (number * number) :=
  let numValue := parseFloat value in
  (value,
   if negb (isNaN numValue) && number_ge numValue (ofZ (-90))
      && number_le numValue (ofZ 90)
   then Some (numValue, snd position) else None).

Definition handleLngChange (position : Coord) (value : string)
  : string * option (number * number) :=
  let numValue := parseFloat value in
  (value,
   if negb (isNaN numValue) && number_ge numValue (ofZ (-180))
      && number_le numValue (ofZ 180)
   then Some (fst position, numValue) else None).

(** [SearchInput]'s [handleSubmit] (lines 178-183): the trimmed text of
    the box goes to [onSearch], unless it is empty. *)
Definition SearchInput_handleSubmit (searchValue : string) : option string :=
  let searchTerm := trim searchValue in
  if String.eqb searchTerm "" then None else Some searchTerm.

(** The buttons of the footer (lines 776-796). *)
Definition previousDisabled (s : WizardState) : bool := currentStep s =? 0.
Definition nextDisabled (s : WizardState) : bool := negb (canProceed s).

(** ** The mounted component as a transition system *)

Record Machine : Type := {
  ui : WizardState;
  pending : list Task
}.

Definition initialMachine : Machine :=
  {| ui := initialState; pending := [] |}.

Inductive Event : Type :=
| MapClick (latlng : LatLng)
| MarkerDragEnd (latlng : LatLng) (type : MarkerType)
| SearchSubmit (searchValue : string)
| LatInput (value : string)
| LngInput (value : string)
| ModeClick (mode : InteractionMode)
| RotateLeftClick
| RotateRightClick
| NextClick
| PreviousClick
| RequestSettles (i : nat) (outcome : FetchOutcome).

(** Which events the rendered tree offers (lines 674-749, 776-796): the
    markers are draggable in drag mode only, the search box and the
    tooltip exist on step 0 only, a disabled button does not click. *)
Definition enabled (m : Machine) (e : Event) : bool :=
  let s := ui m in
  let dragging := InteractionMode_eqb (interactionMode s) drag in
  match e with
  | MapClick _ | ModeClick _ => true
  | MarkerDragEnd _ project => isSome (projectLocation s) && dragging
  | MarkerDragEnd _ extent =>
      (1 <=? currentStep s) && isSome (center (projectExtent s)) && dragging
  | MarkerDragEnd _ building =>
      (2 <=? currentStep s) && isSome (buildingLocation s) && dragging
  | SearchSubmit _ => currentStep s =? 0
  | LatInput _ | LngInput _ =>
      (currentStep s =? 0) && isSome (projectLocation s)
  | RotateLeftClick | RotateRightClick => rotationControl_visible s
  | NextClick => negb (nextDisabled s)
  | PreviousClick => negb (previousDisabled s)
  | RequestSettles i _ => (i <? List.length (pending m))%nat
  end.

Definition option_to_list {A : Type} (o : option A) : list A :=
  match o with Some a => [a] | None => [] end.

(** Run a handler's synchronous part: commit its updates, keep its task. *)
Definition run (m : Machine) (h : list Update * option Task) : Machine :=
  {| ui := commit (fst h) (ui m);
     pending := (pending m ++ option_to_list (snd h))%list |}.

Fixpoint remove_nth {A : Type} (i : nat) (l : list A) : list A :=
  match l, i with
  | [], _ => []
  | _ :: t, O => t
  | a :: t, S i' => a :: remove_nth i' t
  end.

(** An edit in the tooltip: [onPositionChange] is [handleCoordinateChange]
    and [position] is the project location (lines 736-743). *)
Definition tooltip_edit (m : Machine)
  (handler : Coord -> string -> string * option (number * number))
  (value : string) : Machine :=
  match projectLocation (ui m) with
  | Some position =>
      match snd (handler position value) with
      | Some (la, ln) => run m (handleCoordinateChange la ln)
      | None => m
      end
  | None => m
  end.

(** One event delivered to the component as [App] mounts it, with an
    [onComplete] callback and no [onClose]; the second component is the
    result passed to [onComplete] if the event finishes the wizard. *)
Definition step (m : Machine) (e : Event) : Machine * option WizardResult :=
  let s := ui m in
  match e with
  | MapClick latlng => (run m (handleMapClick s latlng), None)
  | MarkerDragEnd latlng type => (run m (handleMarkerDrag s latlng type), None)
  | SearchSubmit searchValue =>
      match SearchInput_handleSubmit searchValue with
      | Some searchTerm => (run m (handleSearch s searchTerm), None)
      | None => (m, None)
      end
  | LatInput value => (tooltip_edit m handleLatChange value, None)
  | LngInput value => (tooltip_edit m handleLngChange value, None)
  | ModeClick mode => (run m ([setInteractionMode mode], None), None)
  | RotateLeftClick =>
      (run m (rotateLeft_click (buildingRotation s) setBuildingRotation, None),
       None)
  | RotateRightClick =>
      (run m (rotateRight_click (buildingRotation s) setBuildingRotation, None),
       None)
  | NextClick =>
      let (us, result) := handleNext true s in (run m (us, None), result)
  | PreviousClick => (run m (handlePrevious s, None), None)
  | RequestSettles i outcome =>
      match nth_error (pending m) i with
      | Some t =>
          ({| ui := commit (resume t outcome) s;
              pending := remove_nth i (pending m) |}, None)
      | None => (m, None)
      end
  end.

(** The states the component can be in. *)
Inductive reachable : Machine -> Prop :=
| reachable_initial : reachable initialMachine
| reachable_step (m : Machine) (e : Event) :
    reachable m -> enabled m e = true -> reachable (fst (step m e)).

(** Deliver a sequence of events, refusing one that is not offered. *)
Fixpoint deliver (es : list Event) (m : Machine) : option Machine :=
  match es with
  | [] => Some m
  | e :: es' => if enabled m e then deliver es' (fst (step m e)) else None
  end.


Definition step_in_range (s : WizardState) : Prop :=
  currentStep s = 0 \/ currentStep s = 1 \/ currentStep s = 2.

(** A run that places the project marker and walks to the last step
    without placing a building. *)
Definition sample_click : LatLng :=
  {| lat := decimal 519 1; lng := decimal (-1275) 4 |}.

Definition skip_building : list Event :=
  [MapClick sample_click; NextClick; NextClick].

(** A run that also places a building, so that the rotation stepper is on
    screen. *)
Definition place_building : list Event :=
  (skip_building ++ [MapClick sample_click])%list.

(** [x] is a number of the closed interval from [lo] to [hi]. *)
Definition within (lo hi : Z) (x : number) : Prop :=
  match x with
  | Finite q => (inject_Z lo <= q /\ q <= inject_Z hi)%Q
  | NaN | Infinity _ => False
  end.

(** The request failed: [fetch] rejected (a network error), or the
    response is not OK. *)
Definition request_failed (outcome : FetchOutcome) : bool :=
  match outcome with
  | FetchRejects _ => true
  | FetchResponds ok _ => negb ok
  end.

(** A body as the geocoding service sends it for a known place, and the
    one it sends, with status 200, for a point it cannot resolve. *)
Definition sample_place : JSValue :=
  VObject [("place_id", VNumber (ofZ 1234));
           ("display_name", VString "10 Downing Street, London");
           ("address", VObject [("city", VString "London")])].

Definition sample_unresolved : JSValue :=
  VObject [("error", VString "Unable to geocode")].

(** Case analysis on the guards of a handler. *)
Ltac case_guards :=
  unfold when;
  repeat match goal with
  | |- context [if ?b then _ else _] => destruct b eqn:?
  | |- context [match ?o with Some _ => _ | None => _ end] => destruct o eqn:?
  end.

(** ** What the reachable states have in common *)

Record wizard_invariant (s : WizardState) : Prop := {
  inv_step : step_in_range s;
  inv_radius : radius (projectExtent s) = 1000;
  inv_zoom : mapZoom s = 4 \/ mapZoom s = 14 \/ mapZoom s = 15;
  inv_located :
    1 <= currentStep s ->
    projectLocation s <> None /\ center (projectExtent s) <> None;
  inv_unrotated :
    buildingLocation s = None -> buildingRotation s = binary64_of_Z 0;
  inv_address :
    searchAddress s = VString "" \/ truthy (searchAddress s) = true
}.

(** ** [MapCenter] (lines 78-88)

    The effect calls [map.setView(center, zoom || map.getZoom())] when
    [center] is truthy; [center] is an array, which always is.  [zoom] is
    an optional prop; [getZoom] stands for what [map.getZoom()] returns. *)
Definition MapCenter_setView (center : Coord) (zoom : option Z) (getZoom : Z)
  : Coord * Z :=
  (center,
   match zoom with
   | Some z => if z =? 0 then getZoom else z
   | None => getZoom
   end).

(** The wizard renders [<MapCenter center={mapCenter} zoom={mapZoom} />]
    (line 666). *)
Definition wizard_setView (s : WizardState) (getZoom : Z) : Coord * Z :=
  MapCenter_setView (mapCenter s) (Some (mapZoom s)) getZoom.

(** ** [StepIndicator] (lines 129-159) *)

Inductive StepStatus : Type := step_completed | step_current | step_pending.

Inductive ConnectorStatus : Type :=
| step_connector_completed
| step_connector_pending.

(** One rendered step: its title, whether the item carries [step-active],
    the number shown, the class of the number, and the connector that
    follows it, if any. *)
Record StepItem : Type := {
  item_title : string;
  item_active : bool;
  item_number : Z;
  item_status : StepStatus;
  item_connector : option ConnectorStatus
}.

(** [l.map((x, index) => f(x, index))], counting from [index]. *)
Fixpoint map_index {A B : Type} (f : A -> nat -> B) (index : nat) (l : list A)
  : list B :=
  match l with
  | [] => []
  | x :: l' => f x index :: map_index f (S index) l'
  end.

Definition StepIndicator (currentStep : Z) (steps : list string)
  : list StepItem :=
  map_index
    (fun title i =>
       let index := Z.of_nat i in
       {| item_title := title;
          item_active := index =? currentStep;
          item_number := index + 1;
          item_status :=
            if index <? currentStep then step_completed
            else if index =? currentStep then step_current
            else step_pending;
          item_connector :=
            if index <? Z.of_nat (List.length steps) - 1 then
              Some (if index <? currentStep then step_connector_completed
                    else step_connector_pending)
            else None |})
    0 steps.

(** The titles of the array literal [steps] (lines 462-466). *)
Definition steps : list string :=
  ["Locate project"; "Extent"; "Place building (Optional)"].

(** ** [InstructionOverlay] (lines 425-448)

    [instructions[step]?.[interactionMode]]: a step that is not a key of
    the table yields [undefined], and the optional chaining keeps the
    second lookup from throwing. *)
Definition instructions (step : Z) : option (string * string) :=
  if step =? 0 then
    Some ("Search for a location or click on the map to place a project marker. You can drag the marker to adjust its position.",
          "Search for a location to center the map, then use the crosshair to position your project.")
  else if step =? 1 then
    Some ("Click and drag to create a circular project extent. Drag the blue handles to resize the circle.",
          "Use the map controls to position the circular extent for your project area.")
  else if step =? 2 then
    Some ("Click to place a building within the project extent. Drag to reposition and use the rotation controls.",
          "Center the map where you want to place the building, then use the controls to position and rotate it.")
  else None.

Definition InstructionOverlay_text (step : Z) (mode : InteractionMode)
  : option string :=
  match instructions step with
  | Some (drag_text, center_text) =>
      Some (match mode with drag => drag_text | center_mode => center_text end)
  | None => None
  end.

(** ** Dragging the coordinate tooltip (lines 291-303, 348-372)

    Pixel coordinates are integers.  A press on the gripper registers a
    [mousemove] and a [mouseup] listener on the document; both close over
    the pointer position of the press and over the tooltip position of the
    render the press happened in. *)
Record Point : Type := { px : Z; py : Z }.

Record DragListeners : Type := {
  startX : Z;
  startY : Z;
  startPosition : Point
}.

Record TooltipState : Type := {
  tooltipPosition : Point;
  isDragging : bool;
  listeners : list DragListeners
}.

(** The values of the [useState] calls, with nothing registered. *)
Definition initialTooltip : TooltipState :=
  {| tooltipPosition := {| px := 0; py := 0 |};
     isDragging := false;
     listeners := [] |}.

(** [handleMouseDown] (lines 348-372). *)
Definition handleMouseDown (isDraggable : bool) (clientX clientY : Z)
  (t : TooltipState) : TooltipState :=
  if negb isDraggable then t
  else {| tooltipPosition := tooltipPosition t;
          isDragging := true;
          listeners :=
            (listeners t ++
             [{| startX := clientX; startY := clientY;
                 startPosition := tooltipPosition t |}])%list |}.

(** One [handleMouseMove] closure (lines 355-362). *)
Definition handleMouseMove (l : DragListeners) (clientX clientY : Z)
  : Point :=
  let deltaX := clientX - startX l in
  let deltaY := clientY - startY l in
  {| px := px (startPosition l) + deltaX;
     py := py (startPosition l) + deltaY |}.

(** A [mousemove] on the document runs the registered closures in the
    order of registration; each sets the position. *)
Definition document_mousemove (clientX clientY : Z) (t : TooltipState)
  : TooltipState :=
  {| tooltipPosition :=
       fold_left (fun _ l => handleMouseMove l clientX clientY)
                 (listeners t) (tooltipPosition t);
     isDragging := isDragging t;
     listeners := listeners t |}.

(** A [mouseup] on the document runs every [handleMouseUp] (lines
    364-368): each clears [isDragging] and removes its own two
    listeners. *)
Definition document_mouseup (t : TooltipState) : TooltipState :=
  match listeners t with
  | [] => t
  | _ :: _ => {| tooltipPosition := tooltipPosition t;
                 isDragging := false;
                 listeners := [] |}
  end.

(** [updateTooltipPosition] (lines 294-303): [containerPoint] is what
    [map.latLngToContainerPoint] returns for the marker, [None] while the
    map reference is still null. *)
Definition updateTooltipPosition (containerPoint : option Point)
  (t : TooltipState) : TooltipState :=
  match containerPoint with
  | None => t
  | Some point =>
      {| tooltipPosition := {| px := px point + 60; py := py point - 30 |};
         isDragging := isDragging t;
         listeners := listeners t |}
  end.

Inductive PointerEvent : Type :=
| GripperMouseDown (clientX clientY : Z)
| DocumentMouseMove (clientX clientY : Z)
| DocumentMouseUp
| MapViewChange (containerPoint : option Point).

(** The tooltip as the wizard renders it, with [isDraggable={true}]. *)
Definition tooltip_step (t : TooltipState) (e : PointerEvent)
  : TooltipState :=
  match e with
  | GripperMouseDown x y => handleMouseDown true x y t
  | DocumentMouseMove x y => document_mousemove x y t
  | DocumentMouseUp => document_mouseup t
  | MapViewChange containerPoint => updateTooltipPosition containerPoint t
  end.

Definition tooltip_run (es : list PointerEvent) (t : TooltipState)
  : TooltipState :=
  fold_left tooltip_step es t.

(** ** [App] (the component that mounts the wizard)

    [App] keeps the result in a state cell: while it is null the wizard is
    mounted, afterwards the results card is shown, whose button clears the
    cell, which mounts a fresh wizard. *)
Inductive AppState : Type :=
| ShowWizard (m : Machine)
| ShowResults (wizardResult : WizardResult).

Inductive AppEvent : Type :=
| InWizard (e : Event)
| StartNewWizardClick.

Definition initialApp : AppState := ShowWizard initialMachine.

(** [handleWizardComplete] stores the result, [handleWizardReset] clears
    it.  Events of the component that is not on screen do nothing; a
    request of an unmounted wizard that settles later changes nothing. *)
Definition app_step (a : AppState) (e : AppEvent) : AppState :=
  match a, e with
  | ShowWizard m, InWizard we =>
      if enabled m we then
        match step m we with
        | (_, Some result) => ShowResults result
        | (m', None) => ShowWizard m'
        end
      else a
  | ShowResults _, StartNewWizardClick => ShowWizard initialMachine
  | _, _ => a
  end.

Inductive app_reachable : AppState -> Prop :=
| app_reachable_initial : app_reachable initialApp
| app_reachable_step (a : AppState) (e : AppEvent) :
    app_reachable a -> app_reachable (app_step a e).

(** The integer [z] as [String(z)] writes it. *)
Definition Z_to_text (z : Z) : string :=
  if z <? 0 then "-" ++ Z_to_string (- z) else Z_to_string z.

Definition InteractionMode_text (mode : InteractionMode) : string :=
  match mode with drag => "drag" | center_mode => "center" end.

(** The values of the expressions in the five rows of the results card:
    four strings and, for the rotation, the number that the row renders. *)
Record ResultsCard : Type := {
  row_projectLocation : string;
  row_projectExtent : string;
  row_buildingLocation : string;
  row_buildingRotation : binary64;
  row_interactionMode : string
}.

Definition resultsCard (wizardResult : WizardResult) : ResultsCard :=
  {| row_projectLocation :=
       match r_projectLocation wizardResult with
       | Some (la, ln) => coordinateText la ln
       | None => "Not set"
       end;
     row_projectExtent :=
       match center (r_projectExtent wizardResult) with
       | Some (la, ln) =>
           "Center: " ++ toFixed la 6 ++ ", " ++ toFixed ln 6
           ++ ", Radius: "
           ++ Z_to_text (radius (r_projectExtent wizardResult)) ++ "m"
       | None => "Not set"
       end;
     row_buildingLocation :=
       match r_buildingLocation wizardResult with
       | Some (la, ln) => coordinateText la ln
       | None => "Not placed"
       end;
     row_buildingRotation := r_buildingRotation wizardResult;
     row_interactionMode :=
       InteractionMode_text (r_interactionMode wizardResult) |}.

(** ** Coordinate literals *)

(** An optional minus, one or more digits, an optional dot, and zero or
    more digits. *)
Definition coordinate_literal (a : string) : Prop :=
  exists sign d ds dot frac,
    a = (sign ++ String d ds ++ dot ++ frac)%string
    /\ (sign = "" \/ sign = "-") /\ is_digit d = true
    /\ string_forall is_digit ds = true
    /\ (dot = "" \/ dot = ".") /\ string_forall is_digit frac = true.

(** ** White space at the ends of a string *)



(** One rendered step, as [StepIndicator] builds it for [total] steps. *)
Definition step_item (currentStep total : Z) (title : string) (i : nat)
  : StepItem :=
  let index := Z.of_nat i in
  {| item_title := title;
     item_active := index =? currentStep;
     item_number := index + 1;
     item_status :=
       if index <? currentStep then step_completed
       else if index =? currentStep then step_current
       else step_pending;
     item_connector :=
       if index <? total - 1 then
         Some (if index <? currentStep then step_connector_completed
               else step_connector_pending)
       else None |}.

(** A pointer event that neither presses nor releases. *)
Definition keeps_the_grip (e : PointerEvent) : bool :=
  match e with
  | DocumentMouseMove _ _ | MapViewChange _ => true
  | GripperMouseDown _ _ | DocumentMouseUp => false
  end.

Definition app_run (es : list AppEvent) (a : AppState) : AppState :=
  fold_left app_step es a.

(** What [App] shows is backed by a reachable wizard: the mounted one, or
    the one that produced the result on its last step. *)
Definition app_invariant (a : AppState) : Prop :=
  match a with
  | ShowWizard m => reachable m
  | ShowResults wizardResult =>
      exists m, reachable m /\ currentStep (ui m) = 2
                /\ wizardResult = result_of (ui m)
  end.

(** Guards as arithmetic facts, and the invariant after a step. *)
Ltac zify_guards :=
  repeat match goal with
  | H : (_ =? _) = true |- _ => apply Z.eqb_eq in H
  | H : (_ =? _) = false |- _ => apply Z.eqb_neq in H
  | H : (_ <? _) = true |- _ => apply Z.ltb_lt in H
  | H : (_ <? _) = false |- _ => apply Z.ltb_ge in H
  | H : (_ <=? _) = true |- _ => apply Z.leb_le in H
  | H : (_ <=? _) = false |- _ => apply Z.leb_gt in H
  | H : (_ && _) = true |- _ => apply andb_true_iff in H as [? ?]
  | H : negb _ = true |- _ => apply negb_true_iff in H
  end.

Ltac use_located :=
  repeat match goal with
  | H : ?a <= ?b -> _ |- _ =>
      let H' := fresh in assert (H' : a <= b) by lia; specialize (H H')
  end.

Ltac invariant_holds :=
  zify_guards; subst; use_located;
  split; unfold step_in_range; cbn;
  try solve [intuition (try congruence; try lia)].

(** * Properties *)

(** ** The built-ins on concrete inputs *)

Example toFixed_pads : toFixed (decimal 407128 4) 6 = "40.712800".
Proof. reflexivity. Qed.

Example toFixed_negative : toFixed (decimal (-740060) 4) 6 = "-74.006000".
Proof. reflexivity. Qed.

Example toFixed_rounds : toFixed (decimal 1234567 7) 6 = "0.123457".
Proof. reflexivity. Qed.

Example toFixed_NaN : toFixed NaN 6 = "NaN".
Proof. reflexivity. Qed.

Example parseFloat_prefix : parseFloat "  12.5abc" = decimal 125 1.
Proof. reflexivity. Qed.

Example parseFloat_exponent : parseFloat "-.5e2" = ofZ (-50).
Proof. reflexivity. Qed.

Example parseFloat_empty : parseFloat "" = NaN.
Proof. reflexivity. Qed.

Example parseFloat_text : parseFloat "north" = NaN.
Proof. reflexivity. Qed.

Example Number_trailing_dot : Number_ "12." = ofZ 12.
Proof. reflexivity. Qed.

Example Number_leading_zeros : Number_ "-007.50" = decimal (-75) 1.
Proof. reflexivity. Qed.

Example Number_empty : Number_ "" = ofZ 0.
Proof. reflexivity. Qed.

Example Number_not_a_prefix_parse : Number_ "12abc" = NaN.
Proof. reflexivity. Qed.

Example split_keeps_empty_parts : split "," ",a,," = [""; "a"; ""; ""].
Proof. reflexivity. Qed.

Example coordPattern_accepts :
  map coordPattern_test ["12,5"; "12.,-5.25"; "-12.5,-5"; "999,999"]
  = [true; true; true; true].
Proof. reflexivity. Qed.

Example coordPattern_rejects :
  map coordPattern_test
      ["12.5, -5"; ".5,1"; "1,2,3"; "+1,2"; "1e3,2"; "12,"; ""; "Paris"]
  = [false; false; false; false; false; false; false; false].
Proof. reflexivity. Qed.

Example geocodeLocation_coordinates :
  geocodeLocation "12.5,-007" = {| lat := decimal 125 1; lng := ofZ (-7) |}.
Proof. reflexivity. Qed.

(** ** Reachability *)

Lemma deliver_reachable (es : list Event) :
  forall m m', reachable m -> deliver es m = Some m' -> reachable m'.
Proof.
  induction es as [|e es IH]; cbn [deliver]; intros m m' Hm H.
  - now inversion H; subst.
  - destruct (enabled m e) eqn:He; [|discriminate].
    eapply IH; [|exact H]. now apply reachable_step.
Qed.

(** ** Step counter *)

Lemma currentStep_handleNext (onComplete : bool) (s : WizardState) :
  currentStep (commit (fst (handleNext onComplete s)) s)
  = if currentStep s <? steps_length - 1 then currentStep s + 1
    else currentStep s.
Proof.
  unfold handleNext.
  destruct (currentStep s <? steps_length - 1); [|reflexivity].
  destruct (projectLocation s); [|reflexivity].
  destruct (currentStep s =? 0); [|reflexivity].
  destruct (currentStep s + 1 =? 1); cbn; reflexivity.
Qed.

Lemma currentStep_handlePrevious (s : WizardState) :
  currentStep (commit (handlePrevious s) s)
  = if 0 <? currentStep s then currentStep s - 1 else currentStep s.
Proof.
  unfold handlePrevious. destruct (0 <? currentStep s); cbn; reflexivity.
Qed.

Lemma currentStep_step (m : Machine) (e : Event) :
  currentStep (ui (fst (step m e)))
  = match e with
    | NextClick =>
        if currentStep (ui m) <? steps_length - 1 then currentStep (ui m) + 1
        else currentStep (ui m)
    | PreviousClick =>
        if 0 <? currentStep (ui m) then currentStep (ui m) - 1
        else currentStep (ui m)
    | _ => currentStep (ui m)
    end.
Proof.
  destruct e; cbn [step fst snd run ui].
  - unfold handleMapClick. case_guards; cbn; reflexivity.
  - destruct type; cbn; reflexivity.
  - destruct (SearchInput_handleSubmit searchValue); [|reflexivity].
    unfold handleSearch. case_guards; cbn; reflexivity.
  - unfold tooltip_edit.
    destruct (projectLocation (ui m)) as [position|]; [|reflexivity].
    destruct (snd (handleLatChange position value)) as [[la ln]|];
      cbn; reflexivity.
  - unfold tooltip_edit.
    destruct (projectLocation (ui m)) as [position|]; [|reflexivity].
    destruct (snd (handleLngChange position value)) as [[la ln]|];
      cbn; reflexivity.
  - cbn; reflexivity.
  - cbn; reflexivity.
  - cbn; reflexivity.
  - rewrite <- (currentStep_handleNext true).
    destruct (handleNext true (ui m)); cbn; reflexivity.
  - apply currentStep_handlePrevious.
  - destruct (nth_error (pending m) i) as [[la ln onThrow]|]; [|reflexivity].
    cbn [fst ui resume].
    destruct (reverseGeocode outcome la ln); cbn; reflexivity.
Qed.

Lemma step_in_range_step (m : Machine) (e : Event) :
  step_in_range (ui m) -> step_in_range (ui (fst (step m e))).
Proof.
  unfold step_in_range. rewrite currentStep_step. unfold steps_length.
  destruct e; try tauto.
  - destruct (Z.ltb_spec (currentStep (ui m)) (3 - 1)); lia.
  - destruct (Z.ltb_spec 0 (currentStep (ui m))); lia.
Qed.

Lemma reachable_step_in_range (m : Machine) :
  reachable m -> step_in_range (ui m).
Proof.
  induction 1 as [|m e _ IH _].
  - left; reflexivity.
  - now apply step_in_range_step.
Qed.

(** C6.  The wizard is a three-step linear state machine: the step counter
    starts at 0 and is 0, 1 or 2 in every reachable state; [handleNext]
    adds exactly 1 when the counter is below the last step and leaves it
    alone otherwise; [handlePrevious] subtracts exactly 1 when the counter
    is above 0 and leaves it alone otherwise; the Previous button is
    disabled exactly on step 0; no other event moves the counter. *)
Theorem C6_three_step_linear_wizard (m : Machine) (Hm : reachable m) :
  currentStep initialState = 0
  /\ (currentStep (ui m) = 0 \/ currentStep (ui m) = 1
      \/ currentStep (ui m) = 2)
  /\ (forall onComplete,
        currentStep (commit (fst (handleNext onComplete (ui m))) (ui m))
        = (if currentStep (ui m) <? 2 then currentStep (ui m) + 1
           else currentStep (ui m)))
  /\ currentStep (commit (handlePrevious (ui m)) (ui m))
     = (if 0 <? currentStep (ui m) then currentStep (ui m) - 1
        else currentStep (ui m))
  /\ (previousDisabled (ui m) = true <-> currentStep (ui m) = 0)
  /\ (forall e, e <> NextClick -> e <> PreviousClick ->
        currentStep (ui (fst (step m e))) = currentStep (ui m)).
Proof.
  split; [reflexivity|].
  split; [exact (reachable_step_in_range m Hm)|].
  split; [intros onComplete; apply currentStep_handleNext|].
  split; [apply currentStep_handlePrevious|].
  split; [unfold previousDisabled; apply Z.eqb_eq|].
  intros e Hn Hp. rewrite currentStep_step.
  destruct e; congruence.
Qed.

Lemma C6_three_step_witness :
  currentStep (commit (fst (handleNext true initialState)) initialState) = 1
  /\ currentStep (commit (handlePrevious initialState) initialState) = 0
  /\ previousDisabled initialState = true.
Proof.
  pose proof (C6_three_step_linear_wizard initialMachine reachable_initial)
    as (_ & _ & Hnext & Hprev & Hdis & _).
  split; [exact (Hnext true)|]. split; [exact Hprev|].
  apply Hdis. reflexivity.
Defined.

(** ** Step 0: the project location and the Next button *)

(** C1.  On step 0 a map click stores the clicked coordinates as the
    project location, and the Next button is available on step 0 exactly
    when the project location is not null: [canProceed] is true there iff
    [projectLocation] is not null.  After the click it is, and the address
    lookup that the click started does not touch the location when it
    settles. *)
Theorem C1_map_click_sets_project_location
  (s : WizardState) (latlng : LatLng) (H0 : currentStep s = 0) :
  let s' := commit (fst (handleMapClick s latlng)) s in
  projectLocation s' = Some (lat latlng, lng latlng)
  /\ (canProceed s = true <-> projectLocation s <> None)
  /\ (nextDisabled s = false <-> projectLocation s <> None)
  /\ currentStep s' = 0
  /\ canProceed s' = true
  /\ (forall t outcome,
        snd (handleMapClick s latlng) = Some t ->
        projectLocation (commit (resume t outcome) s')
        = Some (lat latlng, lng latlng)).
Proof.
  assert (Hcan : canProceed s = true <-> projectLocation s <> None).
  { unfold canProceed. rewrite H0. cbn.
    destruct (projectLocation s); cbn; split; congruence. }
  unfold handleMapClick. rewrite H0. cbn [Z.eqb fst snd].
  repeat split.
  - unfold when. destruct (InteractionMode_eqb _ _); cbn; reflexivity.
  - apply Hcan.
  - apply Hcan.
  - intros H. unfold nextDisabled in H.
    apply Hcan. now destruct (canProceed s).
  - intros H. unfold nextDisabled. apply Hcan in H. now rewrite H.
  - unfold when. destruct (InteractionMode_eqb _ _); cbn; exact H0.
  - unfold canProceed, when.
    destruct (InteractionMode_eqb _ _); cbn; rewrite H0; reflexivity.
  - intros t outcome Ht. inversion Ht; subst t. cbn [resume].
    unfold when.
    destruct (reverseGeocode outcome _ _);
      destruct (InteractionMode_eqb _ _); cbn; reflexivity.
Qed.

Lemma C1_map_click_witness :
  projectLocation
    (commit (fst (handleMapClick initialState sample_click)) initialState)
  = Some (lat sample_click, lng sample_click).
Proof.
  exact (proj1 (C1_map_click_sets_project_location
                  initialState sample_click eq_refl)).
Defined.

(** ** The radius of the project extent *)

Lemma radius_step (m : Machine) (e : Event) :
  radius (projectExtent (ui m)) = 1000 ->
  radius (projectExtent (ui (fst (step m e)))) = 1000.
Proof.
  intros H. destruct e; cbn [step fst snd run ui].
  - unfold handleMapClick. case_guards; cbn; solve [reflexivity | exact H].
  - destruct type; cbn; exact H.
  - destruct (SearchInput_handleSubmit searchValue); [|exact H].
    unfold handleSearch. case_guards; cbn; exact H.
  - unfold tooltip_edit.
    destruct (projectLocation (ui m)) as [position|]; [|exact H].
    destruct (snd (handleLatChange position value)) as [[la ln]|];
      cbn; exact H.
  - unfold tooltip_edit.
    destruct (projectLocation (ui m)) as [position|]; [|exact H].
    destruct (snd (handleLngChange position value)) as [[la ln]|];
      cbn; exact H.
  - cbn; exact H.
  - cbn; exact H.
  - cbn; exact H.
  - unfold handleNext. case_guards; cbn; solve [reflexivity | exact H].
  - unfold handlePrevious. case_guards; cbn; exact H.
  - destruct (nth_error (pending m) i) as [[la ln onThrow]|]; [|exact H].
    cbn [fst ui resume]. destruct (reverseGeocode outcome la ln); cbn; exact H.
Qed.

Lemma reachable_radius (m : Machine) :
  reachable m -> radius (projectExtent (ui m)) = 1000.
Proof.
  induction 1 as [|m e _ IH _]; [reflexivity|now apply radius_step].
Qed.

(** C4.  Every creation of a project extent sets its radius to 1000: the
    initial state, a map click on step 1, and advancing from step 0 with a
    project location set.  Dragging the extent marker keeps the radius, so
    the radius is 1000 in every reachable state. *)
Theorem C4_extent_radius_1000
  (s : WizardState) (latlng : LatLng) (p : Coord)
  (m : Machine) (Hm : reachable m) :
  projectExtent initialState = {| center := None; radius := 1000 |}
  /\ (currentStep s = 1 ->
      projectExtent (commit (fst (handleMapClick s latlng)) s)
      = {| center := Some (lat latlng, lng latlng); radius := 1000 |})
  /\ (forall onComplete,
        currentStep s = 0 -> projectLocation s = Some p ->
        projectExtent (commit (fst (handleNext onComplete s)) s)
        = {| center := Some p; radius := 1000 |})
  /\ radius (projectExtent (ui m)) = 1000.
Proof.
  split; [reflexivity|]. split; [|split].
  - intros H1. unfold handleMapClick, when. rewrite H1. cbn [Z.eqb fst].
    destruct (InteractionMode_eqb _ _); cbn; reflexivity.
  - intros onComplete H0 Hp. unfold handleNext, when, steps_length.
    rewrite H0, Hp. cbn; reflexivity.
  - now apply reachable_radius.
Qed.

Lemma C4_extent_radius_witness :
  projectExtent
    (commit (fst (handleMapClick (setCurrentStep 1 initialState) sample_click))
            (setCurrentStep 1 initialState))
  = {| center := Some (lat sample_click, lng sample_click); radius := 1000 |}
  /\ radius (projectExtent (ui initialMachine)) = 1000.
Proof.
  pose proof (C4_extent_radius_1000 (setCurrentStep 1 initialState)
                sample_click (lat sample_click, lng sample_click)
                initialMachine reachable_initial) as H.
  split.
  - exact (proj1 (proj2 H) eq_refl).
  - exact (proj2 (proj2 (proj2 H))).
Defined.

(** ** Binary64 sums of small integers are exact *)

Lemma iter_pos_iter (A : Type) (f : A -> A) (n : positive) :
  forall x, iter_pos f n x = Pos.iter f x n.
Proof.
  induction n as [n IH|n IH|]; intros x; cbn [iter_pos Pos.iter].
  - now rewrite !IH, !Pos.iter_swap.
  - now rewrite !IH.
  - reflexivity.
Qed.

Lemma shr_exact (q : positive) (n : positive) :
  Pos.iter shr_1 (exact_record (Pos.iter xO q n)) n = exact_record q.
Proof.
  induction n as [|n IH] using Pos.peano_ind.
  - reflexivity.
  - rewrite !Pos.iter_succ, <- Pos.iter_swap. exact IH.
Qed.

Lemma digits_shift (q n : positive) :
  digits2_pos (Pos.iter xO q n) = (digits2_pos q + n)%positive.
Proof.
  induction n as [|n IH] using Pos.peano_ind.
  - cbn. now rewrite Pos.add_1_r.
  - rewrite Pos.iter_succ. cbn [digits2_pos]. rewrite IH. lia.
Qed.

Lemma value_shift (q n : positive) :
  Zpos (Pos.iter xO q n) = Zpos q * 2 ^ Zpos n.
Proof.
  induction n as [|n IH] using Pos.peano_ind.
  - cbn. lia.
  - rewrite Pos.iter_succ, Pos2Z.inj_succ, Z.pow_succ_r by lia.
    rewrite Pos2Z.inj_xO, IH. lia.
Qed.

Lemma digits_size (q : positive) : digits2_pos q = Pos.size q.
Proof. induction q as [q IH|q IH|]; cbn; now rewrite ?IH. Qed.

Lemma digits_bound (q : positive) :
  Zpos q < 2 ^ 53 -> 1 <= Zpos (digits2_pos q) <= 53.
Proof.
  intros H. split; [clear H; lia|].
  rewrite digits_size.
  pose proof (Pos.size_le q) as Hle.
  apply Pos2Z.pos_le_pos in Hle. rewrite Pos2Z.inj_pow in Hle.
  change (Zpos q~0) with (2 * Zpos q) in Hle.
  destruct (Z_le_gt_dec (Zpos (Pos.size q)) 53) as [|Hgt]; [assumption|].
  exfalso.
  assert (H54 : 2 ^ 54 <= 2 ^ Zpos (Pos.size q))
    by (apply Z.pow_le_mono_r; lia).
  set (X := 2 ^ Zpos (Pos.size q)) in *.
  change (2 ^ 54) with 18014398509481984 in H54.
  change (2 ^ 53) with 9007199254740992 in H. lia.
Qed.

Lemma shift_left_value (q : positive) (k : Z) :
  0 <= k -> Zpos (shift_left q k) = Zpos q * 2 ^ k.
Proof.
  destruct k as [|n|n]; cbn [shift_left]; intros Hk; [lia| |lia].
  apply value_shift.
Qed.

Lemma shift_left_digits (q : positive) (k : Z) :
  0 <= k -> Zpos (digits2_pos (shift_left q k)) = Zpos (digits2_pos q) + k.
Proof.
  destruct k as [|n|n]; cbn [shift_left]; intros Hk; [lia| |lia].
  rewrite digits_shift. lia.
Qed.

Lemma shift_left_unique (M q : positive) (k : Z) :
  0 <= k -> Zpos M = Zpos q * 2 ^ k -> M = shift_left q k.
Proof.
  intros Hk HM. apply Pos2Z.inj. now rewrite shift_left_value.
Qed.

Lemma fexp_53 (d : Z) : -1021 <= d -> fexp 53 1024 d = d - 53.
Proof. unfold fexp, emin. lia. Qed.

Lemma binary_round_aux_exact (s : bool) (T : positive) (e : Z) :
  Zpos (digits2_pos T) = 53 -> -1074 <= e <= 971 ->
  binary_round_aux 53 1024 s (Zpos T) e loc_Exact = S754_finite s T e.
Proof.
  intros HT He.
  assert (Hshr : shr_fexp 53 1024 (Zpos T) e loc_Exact
                 = (exact_record T, e)).
  { unfold shr_fexp. cbn [Zdigits2 shr_record_of_loc]. rewrite HT.
    rewrite fexp_53 by lia.
    replace (53 + e - 53 - e) with 0 by lia. reflexivity. }
  unfold binary_round_aux. rewrite Hshr.
  cbn [exact_record shr_m loc_of_shr_record round_nearest_even].
  fold (exact_record T). rewrite Hshr. cbn [exact_record shr_m].
  destruct (Z.leb_spec e (1024 - 53)); [reflexivity|lia].
Qed.

Lemma binary_round_aux_shifted (s : bool) (T n : positive) (e : Z) :
  Zpos (digits2_pos T) = 53 -> -1074 <= e + Zpos n <= 971 ->
  binary_round_aux 53 1024 s (Zpos (Pos.iter xO T n)) e loc_Exact
  = S754_finite s T (e + Zpos n).
Proof.
  intros HT He.
  assert (Hshr : shr_fexp 53 1024 (Zpos (Pos.iter xO T n)) e loc_Exact
                 = (exact_record T, e + Zpos n)).
  { unfold shr_fexp. cbn [Zdigits2 shr_record_of_loc].
    rewrite digits_shift, Pos2Z.inj_add, HT.
    rewrite fexp_53 by lia.
    replace (53 + Zpos n + e - 53 - e) with (Zpos n) by lia.
    cbn [shr]. fold (exact_record (Pos.iter xO T n)).
    now rewrite iter_pos_iter, shr_exact. }
  assert (Hshr' : shr_fexp 53 1024 (Zpos T) (e + Zpos n) loc_Exact
                  = (exact_record T, e + Zpos n)).
  { unfold shr_fexp. cbn [Zdigits2 shr_record_of_loc]. rewrite HT.
    rewrite fexp_53 by lia.
    replace (53 + (e + Zpos n) - 53 - (e + Zpos n)) with 0 by lia.
    reflexivity. }
  unfold binary_round_aux. rewrite Hshr.
  cbn [exact_record shr_m loc_of_shr_record round_nearest_even].
  rewrite Hshr'. cbn [exact_record shr_m].
  destruct (Z.leb_spec (e + Zpos n) (1024 - 53)); [reflexivity|lia].
Qed.

Lemma canonical_mantissa_value (q : positive) :
  Zpos q < 2 ^ 53 ->
  Zpos (canonical_mantissa_of q) = Zpos q * 2 ^ (- canonical_exponent q)
  /\ Zpos (digits2_pos (canonical_mantissa_of q)) = 53
  /\ -52 <= canonical_exponent q <= 0.
Proof.
  intros Hq. pose proof (digits_bound q Hq) as Hd.
  unfold canonical_mantissa_of, canonical_exponent.
  rewrite shift_left_value, shift_left_digits by lia. lia.
Qed.

Lemma binary_round_scaled (s : bool) (M q : positive) (k : Z) :
  0 <= k -> Zpos M = Zpos q * 2 ^ k -> Zpos q < 2 ^ 53 ->
  binary_round 53 1024 s M (- k)
  = S754_finite s (canonical_mantissa_of q) (canonical_exponent q).
Proof.
  intros Hk HM Hq.
  destruct (canonical_mantissa_value q Hq) as (HT & HdT & He).
  pose proof (digits_bound q Hq) as Hd.
  assert (HdM : Zpos (digits2_pos M) = Zpos (digits2_pos q) + k).
  { rewrite (shift_left_unique M q k Hk HM). now apply shift_left_digits. }
  set (T := canonical_mantissa_of q) in *.
  unfold canonical_exponent in *.
  set (d := Zpos (digits2_pos q)) in *.
  unfold binary_round. rewrite HdM.
  replace (d + k + - k) with d by lia.
  rewrite fexp_53 by lia. unfold shl_align.
  destruct (d - 53 - - k) as [|p|p] eqn:E.
  - assert (M = T) as ->.
    { apply Pos2Z.inj. rewrite HM, HT. f_equal. f_equal. lia. }
    replace (- k) with (d - 53) by lia.
    apply binary_round_aux_exact; [assumption|lia].
  - assert (M = Pos.iter xO T p) as ->.
    { apply Pos2Z.inj. rewrite value_shift, HM, HT, <- Z.mul_assoc.
      rewrite <- Z.pow_add_r by lia. f_equal. f_equal. lia. }
    replace (d - 53) with (- k + Zpos p) by lia.
    apply binary_round_aux_shifted; [assumption|lia].
  - assert (Pos.iter xO M p = T) as ->.
    { apply Pos2Z.inj. rewrite value_shift, HM, HT, <- Z.mul_assoc.
      rewrite <- Z.pow_add_r by lia. f_equal. f_equal. lia. }
    apply binary_round_aux_exact; [assumption|lia].
Qed.

(** Normalising [z * 2^k] at exponent [-k] is normalising [z]. *)
Lemma binary_normalize_scaled (z k : Z) :
  0 <= k -> Z.abs z < 2 ^ 53 ->
  binary_normalize 53 1024 (z * 2 ^ k) (- k) false = binary64_of_Z z.
Proof.
  intros Hk Hz. unfold binary64_of_Z.
  assert (Hpow : 0 < 2 ^ k) by (apply Z.pow_pos_nonneg; lia).
  destruct z as [|q|q].
  - reflexivity.
  - destruct (Zpos q * 2 ^ k) as [|M|M] eqn:E; try lia.
    cbn [binary_normalize].
    rewrite (binary_round_scaled false M q k Hk (eq_sym E)) by exact Hz.
    change 0 with (- 0).
    now rewrite (binary_round_scaled false q q 0); [|lia|lia|exact Hz].
  - destruct (Zneg q * 2 ^ k) as [|M|M] eqn:E; try lia.
    cbn [binary_normalize].
    rewrite (binary_round_scaled true M q k Hk) by (exact Hz || lia).
    change 0 with (- 0).
    now rewrite (binary_round_scaled true q q 0); [|lia|lia|exact Hz].
Qed.

Lemma binary64_of_Z_canonical (z : Z) :
  z <> 0 -> Z.abs z < 2 ^ 53 ->
  binary64_of_Z z
  = S754_finite (z <? 0) (canonical_mantissa_of (Z.to_pos (Z.abs z)))
                (canonical_exponent (Z.to_pos (Z.abs z))).
Proof.
  intros Hz Hb. unfold binary64_of_Z.
  destruct z as [|q|q]; [congruence| |];
    cbn [binary_normalize Z.ltb Z.compare Z.abs Z.to_pos];
    change 0 with (- 0) at 1;
    apply binary_round_scaled; solve [lia | exact Hb].
Qed.

Lemma shl_align_value (T : positive) (e ez : Z) :
  ez <= e -> Zpos (fst (shl_align T e ez)) = Zpos T * 2 ^ (e - ez).
Proof.
  intros He. unfold shl_align.
  destruct (ez - e) as [|p|p] eqn:E; cbn [fst]; [|lia|].
  - replace (e - ez) with 0 by lia. lia.
  - rewrite value_shift. f_equal. f_equal. lia.
Qed.

(** The aligned, signed mantissa that [SFadd] and [SFsub] compute for a
    small integer. *)
Lemma aligned_mantissa (z ez : Z) :
  z <> 0 -> Z.abs z < 2 ^ 53 ->
  let q := Z.to_pos (Z.abs z) in
  ez <= canonical_exponent q ->
  cond_Zopp (z <? 0)
    (Zpos (fst (shl_align (canonical_mantissa_of q) (canonical_exponent q)
                          ez)))
  = z * 2 ^ (- ez).
Proof.
  intros Hz Hb q Hez.
  assert (Hq : Zpos q = Z.abs z) by (unfold q; lia).
  destruct (canonical_mantissa_value q) as (HT & _ & He); [lia|].
  rewrite shl_align_value, HT, <- Z.mul_assoc by assumption.
  rewrite <- Z.pow_add_r by lia.
  replace (- canonical_exponent q + (canonical_exponent q - ez))
    with (- ez) by lia.
  rewrite Hq. unfold cond_Zopp.
  destruct (Z.ltb_spec z 0); lia.
Qed.

Lemma binary64_add_exact (a b : Z) :
  Z.abs a < 2 ^ 53 -> Z.abs b < 2 ^ 53 -> Z.abs (a + b) < 2 ^ 53 ->
  binary64_add (binary64_of_Z a) (binary64_of_Z b) = binary64_of_Z (a + b).
Proof.
  intros Ha Hb Hab. unfold binary64_add.
  destruct (Z.eq_dec a 0) as [->|Ha0]; destruct (Z.eq_dec b 0) as [->|Hb0].
  - reflexivity.
  - rewrite Z.add_0_l, (binary64_of_Z_canonical b Hb0 Hb). reflexivity.
  - rewrite Z.add_0_r, (binary64_of_Z_canonical a Ha0 Ha). reflexivity.
  - rewrite (binary64_of_Z_canonical a Ha0 Ha),
      (binary64_of_Z_canonical b Hb0 Hb).
    cbn [SFadd]. cbv zeta.
    destruct (canonical_mantissa_value (Z.to_pos (Z.abs a)))
      as (_ & _ & Hea); [lia|].
    destruct (canonical_mantissa_value (Z.to_pos (Z.abs b)))
      as (_ & _ & Heb); [lia|].
    rewrite (aligned_mantissa a _ Ha0 Ha) by lia.
    rewrite (aligned_mantissa b _ Hb0 Hb) by lia.
    rewrite <- Z.mul_add_distr_r.
    match goal with
    | |- binary_normalize _ _ _ ?ez _ = _ =>
        rewrite <- (Z.opp_involutive ez) at 2
    end.
    apply binary_normalize_scaled; [lia|exact Hab].
Qed.

Lemma binary64_sub_exact (a b : Z) :
  Z.abs a < 2 ^ 53 -> Z.abs b < 2 ^ 53 -> Z.abs (a - b) < 2 ^ 53 ->
  binary64_sub (binary64_of_Z a) (binary64_of_Z b) = binary64_of_Z (a - b).
Proof.
  intros Ha Hb Hab. unfold binary64_sub.
  destruct (Z.eq_dec a 0) as [->|Ha0]; destruct (Z.eq_dec b 0) as [->|Hb0].
  - reflexivity.
  - rewrite Z.sub_0_l, (binary64_of_Z_canonical b Hb0 Hb).
    rewrite (binary64_of_Z_canonical (- b)) by lia.
    rewrite Z.abs_opp. cbn [binary64_of_Z binary_normalize SFsub].
    f_equal.
    destruct (Z.ltb_spec b 0), (Z.ltb_spec (- b) 0); lia || reflexivity.
  - rewrite Z.sub_0_r, (binary64_of_Z_canonical a Ha0 Ha). reflexivity.
  - rewrite (binary64_of_Z_canonical a Ha0 Ha),
      (binary64_of_Z_canonical b Hb0 Hb).
    cbn [SFsub]. cbv zeta.
    destruct (canonical_mantissa_value (Z.to_pos (Z.abs a)))
      as (_ & _ & Hea); [lia|].
    destruct (canonical_mantissa_value (Z.to_pos (Z.abs b)))
      as (_ & _ & Heb); [lia|].
    rewrite (aligned_mantissa a _ Ha0 Ha) by lia.
    rewrite (aligned_mantissa b _ Hb0 Hb) by lia.
    rewrite <- Z.mul_sub_distr_r.
    match goal with
    | |- binary_normalize _ _ _ ?ez _ = _ =>
        rewrite <- (Z.opp_involutive ez) at 2
    end.
    apply binary_normalize_scaled; [lia|exact Hab].
Qed.

Lemma integer_value_of_Z (z : Z) :
  Z.abs z < 2 ^ 53 -> integer_value (binary64_of_Z z) = Some z.
Proof.
  intros Hb. destruct (Z.eq_dec z 0) as [->|Hz]; [reflexivity|].
  rewrite (binary64_of_Z_canonical z Hz Hb).
  set (q := Z.to_pos (Z.abs z)).
  assert (Hq : Zpos q = Z.abs z) by (unfold q; lia).
  destruct (canonical_mantissa_value q) as (HT & _ & He); [lia|].
  set (T := canonical_mantissa_of q) in *.
  set (e := canonical_exponent q) in *.
  assert (Hpow : 0 < 2 ^ (- e)) by (apply Z.pow_pos_nonneg; lia).
  assert (Hv : (if z <? 0 then Zneg T else Zpos T) = z * 2 ^ (- e)).
  { change (Zneg T) with (- Zpos T). rewrite HT, Hq.
    destruct (Z.ltb_spec z 0); lia. }
  cbn [integer_value]. rewrite Hv.
  destruct (Z.leb_spec 0 e).
  - replace e with 0 by lia. f_equal. cbn. lia.
  - rewrite HT, Z.mod_mul by lia. cbn [Z.eqb].
    now rewrite Z.div_mul by lia.
Qed.

(** ** The rotation stepper *)

Lemma step_rotate_right (m : Machine) :
  buildingRotation (ui (fst (step m RotateRightClick)))
  = binary64_add (buildingRotation (ui m)) (binary64_of_Z 15).
Proof.
  cbn [step fst run ui rotateRight_click commit fold_left]. reflexivity.
Qed.

Lemma step_rotate_left (m : Machine) :
  buildingRotation (ui (fst (step m RotateLeftClick)))
  = binary64_sub (buildingRotation (ui m)) (binary64_of_Z 15).
Proof.
  cbn [step fst run ui rotateLeft_click commit fold_left]. reflexivity.
Qed.









(** ** Finishing the wizard *)

(** C8.  Placing a building is optional: on step 2, the last step,
    [canProceed] is true whatever the building location is, so the Finish
    button is enabled, and [handleNext] queues no update and hands
    [onComplete] (when the parent supplied it, as [App] does) the result
    object made of the project location, the project extent, the building
    location, the building rotation and the interaction mode.  The
    building location in it may be null: a reachable state on step 2 has
    none, and finishing there emits a result without one. *)
Theorem C8_building_step_is_optional
  (s : WizardState) (H2 : currentStep s = 2) :
  canProceed s = true
  /\ nextDisabled s = false
  /\ handleNext true s = ([], Some (result_of s))
  /\ handleNext false s = ([], None)
  /\ r_projectLocation (result_of s) = projectLocation s
  /\ r_projectExtent (result_of s) = projectExtent s
  /\ r_buildingLocation (result_of s) = buildingLocation s
  /\ r_buildingRotation (result_of s) = buildingRotation s
  /\ r_interactionMode (result_of s) = interactionMode s
  /\ (exists m result,
        reachable m /\ currentStep (ui m) = 2
        /\ buildingLocation (ui m) = None
        /\ enabled m NextClick = true
        /\ step m NextClick = (m, Some result)
        /\ r_buildingLocation result = None).
Proof.
  assert (Hc : canProceed s = true).
  { unfold canProceed. rewrite H2. reflexivity. }
  split; [exact Hc|].
  split; [unfold nextDisabled; now rewrite Hc|].
  split; [unfold handleNext, steps_length; rewrite H2; reflexivity|].
  split; [unfold handleNext, steps_length; rewrite H2; reflexivity|].
  repeat (split; [reflexivity|]).
  destruct (deliver skip_building initialMachine) as [m|] eqn:E;
    [|vm_compute in E; discriminate].
  exists m, (result_of (ui m)).
  split; [exact (deliver_reachable _ _ _ reachable_initial E)|].
  vm_compute in E. inversion E; subst m.
  repeat split; try reflexivity.
Qed.

Lemma C8_building_step_witness :
  canProceed (setCurrentStep 2 initialState) = true
  /\ handleNext true (setCurrentStep 2 initialState)
     = ([], Some (result_of (setCurrentStep 2 initialState))).
Proof.
  pose proof (C8_building_step_is_optional
                (setCurrentStep 2 initialState) eq_refl) as H.
  exact (conj (proj1 H) (proj1 (proj2 (proj2 H)))).
Defined.

(** ** The matcher decides the language of the pattern *)

Lemma append_eq_empty (s1 s2 : string) :
  (s1 ++ s2)%string = "" -> s1 = "" /\ s2 = "".
Proof. destruct s1; cbn; [auto|discriminate]. Qed.

Lemma nullable_lang (r : regex) : nullable r = true <-> lang r "".
Proof.
  induction r as [| |c| |r1 IH1 r2 IH2|r1 IH1 r2 IH2|r IH]; cbn [nullable].
  - split; [discriminate|inversion 1].
  - split; [constructor|reflexivity].
  - split; [discriminate|inversion 1].
  - split; [discriminate|inversion 1].
  - rewrite andb_true_iff, IH1, IH2. split.
    + intros [H1 H2]. exact (lang_seq _ _ "" "" H1 H2).
    + inversion 1 as [| | |? ? s1 s2 H1 H2 E1 E2| | | |]; subst.
      apply append_eq_empty in E2 as [-> ->]. auto.
  - rewrite orb_true_iff, IH1, IH2. split.
    + intros [H|H]; [now apply lang_alt_l|now apply lang_alt_r].
    + inversion 1; subst; auto.
  - split; [constructor|reflexivity].
Qed.

Lemma lang_star_cons_inv (r : regex) (a : ascii) (s : string) :
  lang (Star r) (String a s) ->
  exists s1 s2, s = (s1 ++ s2)%string /\ lang r (String a s1)
                /\ lang (Star r) s2.
Proof.
  intros H. remember (Star r) as r' eqn:Er.
  remember (String a s) as w eqn:Ew.
  revert s Ew.
  induction H as [| | | | | | |r0 s1 s2 H1 _ H2 IH2]; intros t Ew;
    try discriminate.
  inversion Er; subst r0.
  destruct s1 as [|c s1]; cbn in Ew.
  - now apply IH2.
  - inversion Ew; subst. now exists s1, s2.
Qed.

Lemma deriv_lang (a : ascii) (r : regex) :
  forall s, lang (deriv a r) s <-> lang r (String a s).
Proof.
  induction r as [| |c| |r1 IH1 r2 IH2|r1 IH1 r2 IH2|r IH]; intros s;
    cbn [deriv].
  - split; inversion 1.
  - split; inversion 1.
  - destruct (Ascii.eqb_spec a c) as [->|Hne].
    + split; inversion 1; subst; constructor.
    + split; inversion 1; subst; congruence.
  - destruct (is_digit a) eqn:Hd.
    + split; inversion 1; subst; now constructor.
    + split; inversion 1; subst; congruence.
  - assert (Hcons : forall s1 s2, lang (deriv a r1) s1 -> lang r2 s2 ->
                                   lang (Seq r1 r2) (String a (s1 ++ s2))).
    { intros s1 s2 H1 H2. apply IH1 in H1.
      exact (lang_seq _ _ (String a s1) s2 H1 H2). }
    destruct (nullable r1) eqn:Hn.
    + split.
      * inversion 1 as [| | | |? ? ? HL|? ? ? HR| |]; subst.
        -- inversion HL; subst. now apply Hcons.
        -- apply nullable_lang in Hn. apply IH2 in HR.
           exact (lang_seq _ _ "" (String a s) Hn HR).
      * inversion 1 as [| | |? ? s1 s2 H1 H2 E1 E2| | | |]; subst.
        destruct s1 as [|c s1]; cbn in E2.
        -- subst s2. apply lang_alt_r. now apply IH2.
        -- inversion E2; subst. apply lang_alt_l.
           apply lang_seq; [now apply IH1|assumption].
    + split.
      * inversion 1; subst. now apply Hcons.
      * inversion 1 as [| | |? ? s1 s2 H1 H2 E1 E2| | | |]; subst.
        destruct s1 as [|c s1]; cbn in E2.
        -- apply nullable_lang in H1. congruence.
        -- inversion E2; subst.
           apply lang_seq; [now apply IH1|assumption].
  - split.
    + inversion 1; subst; [apply lang_alt_l; now apply IH1
                          |apply lang_alt_r; now apply IH2].
    + inversion 1; subst; [apply lang_alt_l; now apply IH1
                          |apply lang_alt_r; now apply IH2].
  - split.
    + inversion 1 as [| | |? ? s1 s2 H1 H2 E1 E2| | | |]; subst.
      apply IH in H1.
      exact (lang_star_cons _ (String a s1) s2 H1 H2).
    + intros H. apply lang_star_cons_inv in H as (s1 & s2 & -> & H1 & H2).
      apply lang_seq; [now apply IH|assumption].
Qed.

Lemma matches_lang (s : string) :
  forall r, matches r s = true <-> lang r s.
Proof.
  induction s as [|a s IH]; intros r; cbn [matches].
  - apply nullable_lang.
  - rewrite IH. apply deriv_lang.
Qed.

(** ** The shape of a search term that matches [coordPattern] *)

Lemma string_forall_app (p : ascii -> bool) (s1 s2 : string) :
  string_forall p (s1 ++ s2) = string_forall p s1 && string_forall p s2.
Proof.
  induction s1 as [|c s1 IH]; cbn [append string_forall]; [reflexivity|].
  now rewrite IH, andb_assoc.
Qed.

Lemma string_forall_weaken (p q : ascii -> bool) (s : string) :
  (forall c, p c = true -> q c = true) ->
  string_forall p s = true -> string_forall q s = true.
Proof.
  intros Hpq. induction s as [|c s IH]; cbn [string_forall]; [reflexivity|].
  rewrite !andb_true_iff. intros [Hc Hs]. auto.
Qed.

Lemma lang_star_digit (s : string) :
  lang (Star Digit) s -> string_forall is_digit s = true.
Proof.
  intros H. remember (Star Digit) as r eqn:Er.
  induction H as [| | | | | | |r0 s1 s2 H1 _ _ IH2]; try discriminate.
  - reflexivity.
  - inversion Er; subst r0. inversion H1 as [| |c Hc| | | | |]; subst.
    cbn [append string_forall]. now rewrite Hc, IH2.
Qed.

Lemma lang_opt_chr (c : ascii) (s : string) :
  lang (Opt (Chr c)) s -> s = "" \/ s = String c "".
Proof.
  unfold Opt. inversion 1 as [| | | |? ? ? H1|? ? ? H2| |]; subst.
  - inversion H1; auto.
  - inversion H2; auto.
Qed.

(** A coordinate literal: an optional minus, at least one digit, an
    optional dot, and more digits. *)
Lemma coordinatePart_shape (a : string) :
  lang coordinatePart a ->
  exists sign d ds dot frac,
    a = (sign ++ String d ds ++ dot ++ frac)%string
    /\ (sign = "" \/ sign = "-") /\ is_digit d = true
    /\ string_forall is_digit ds = true
    /\ (dot = "" \/ dot = ".") /\ string_forall is_digit frac = true.
Proof.
  unfold coordinatePart, Plus.
  inversion 1 as [| | |? ? sign rest1 Hsign Hrest1| | | |]; subst.
  inversion Hrest1 as [| | |? ? ds rest2 Hds Hrest2| | | |]; subst.
  inversion Hrest2 as [| | |? ? dot frac Hdot Hfrac| | | |]; subst.
  inversion Hds as [| | |? ? d ds' Hd1 Hds'| | | |]; subst.
  inversion Hd1 as [| |c Hc| | | | |]; subst.
  exists sign, c, ds', dot, frac.
  repeat split; auto using lang_star_digit, lang_opt_chr.
Qed.

Lemma lang_coordinatePart_chars (a : string) :
  lang coordinatePart a -> string_forall coordinate_char a = true.
Proof.
  assert (Hd : forall s, string_forall is_digit s = true ->
                         string_forall coordinate_char s = true).
  { intros s. apply string_forall_weaken. intros c Hc.
    unfold coordinate_char. now rewrite Hc. }
  intros Ha.
  destruct (coordinatePart_shape a Ha)
    as (sign & d & ds & dot & frac & -> & Hsign & Hc & Hds & Hdot & Hfrac).
  rewrite !string_forall_app. cbn [string_forall].
  rewrite (Hd ds Hds), (Hd frac Hfrac).
  unfold coordinate_char at 2. rewrite Hc.
  destruct Hsign as [-> | ->], Hdot as [-> | ->]; reflexivity.
Qed.

Lemma coordinate_char_not_comma (c : ascii) :
  coordinate_char c = true -> Ascii.eqb c "," = false.
Proof.
  intros H. destruct (Ascii.eqb_spec c ",") as [->|]; [|reflexivity].
  vm_compute in H. discriminate.
Qed.

Lemma split_without_separator (sep : ascii) (s : string) :
  string_forall (fun c => negb (Ascii.eqb c sep)) s = true ->
  split sep s = [s].
Proof.
  induction s as [|c s IH]; cbn [split string_forall]; [reflexivity|].
  rewrite andb_true_iff, negb_true_iff. intros [Hc Hs].
  now rewrite Hc, (IH Hs).
Qed.

Lemma split_at_separator (sep : ascii) (a b : string) :
  string_forall (fun c => negb (Ascii.eqb c sep)) a = true ->
  split sep (a ++ String sep b) = a :: split sep b.
Proof.
  induction a as [|c a IH]; cbn [split string_forall append].
  - intros _. now rewrite Ascii.eqb_refl.
  - rewrite andb_true_iff, negb_true_iff. intros [Hc Ha].
    now rewrite Hc, (IH Ha).
Qed.

Lemma coordinate_without_comma (a : string) :
  lang coordinatePart a ->
  string_forall (fun c => negb (Ascii.eqb c ",")) a = true.
Proof.
  intros H. apply lang_coordinatePart_chars in H.
  revert H. apply string_forall_weaken.
  intros c Hc. now rewrite (coordinate_char_not_comma c Hc).
Qed.

(** A term that passes the test is two coordinate literals around one
    comma, and [split] returns exactly those two. *)
Lemma split_coordPattern (searchTerm : string) :
  coordPattern_test searchTerm = true ->
  exists a b, searchTerm = (a ++ "," ++ b)%string
              /\ lang coordinatePart a /\ lang coordinatePart b
              /\ split "," searchTerm = [a; b].
Proof.
  unfold coordPattern_test, coordPattern. intros H.
  apply matches_lang in H.
  inversion H as [| | |? ? a rest Ha Hrest| | | |]; subst.
  inversion Hrest as [| | |? ? comma b Hcomma Hb| | | |]; subst.
  inversion Hcomma; subst.
  exists a, b. repeat split; try assumption.
  cbn [append].
  rewrite split_at_separator by now apply coordinate_without_comma.
  rewrite split_without_separator by now apply coordinate_without_comma.
  reflexivity.
Qed.

(** ** [Number] on a coordinate literal *)

Lemma list_ascii_string_forall (p : ascii -> bool) (s : string) :
  string_forall p s = forallb p (list_ascii_of_string s).
Proof.
  induction s as [|c s IH]; cbn; [reflexivity|now rewrite IH].
Qed.

Lemma string_forall_rev (p : ascii -> bool) (s : string) :
  string_forall p (string_rev s) = string_forall p s.
Proof.
  unfold string_rev.
  rewrite !list_ascii_string_forall, list_ascii_of_string_of_list_ascii.
  induction (list_ascii_of_string s) as [|c l IH]; cbn; [reflexivity|].
  rewrite forallb_app, IH. cbn. rewrite andb_true_r. apply andb_comm.
Qed.

Lemma string_rev_involutive (s : string) : string_rev (string_rev s) = s.
Proof.
  unfold string_rev.
  now rewrite list_ascii_of_string_of_list_ascii, rev_involutive,
    string_of_list_ascii_of_string.
Qed.

Lemma trimStart_no_whitespace (s : string) :
  string_forall (fun c => negb (is_whitespace c)) s = true ->
  trimStart s = s.
Proof.
  destruct s as [|c s]; cbn; [reflexivity|].
  rewrite andb_true_iff, negb_true_iff. now intros [-> _].
Qed.

Lemma trim_no_whitespace (s : string) :
  string_forall (fun c => negb (is_whitespace c)) s = true -> trim s = s.
Proof.
  intros H. unfold trim.
  rewrite (trimStart_no_whitespace s H).
  rewrite trimStart_no_whitespace by now rewrite string_forall_rev.
  apply string_rev_involutive.
Qed.

Lemma span_digits_all (ds : string) :
  string_forall is_digit ds = true -> span_digits ds = (ds, "").
Proof.
  induction ds as [|c ds IH]; cbn; [reflexivity|].
  rewrite andb_true_iff. intros [-> Hds]. now rewrite (IH Hds).
Qed.

Lemma span_digits_until (ds : string) (c : ascii) (rest : string) :
  string_forall is_digit ds = true -> is_digit c = false ->
  span_digits (ds ++ String c rest) = (ds, String c rest).
Proof.
  intros Hds Hc. induction ds as [|d ds IH]; cbn.
  - now rewrite Hc.
  - cbn in Hds. apply andb_true_iff in Hds as [-> Hds]. now rewrite (IH Hds).
Qed.

(** The character facts used below, by enumeration of the 256 bytes. *)
Lemma coordinate_char_facts (c : ascii) :
  coordinate_char c = true ->
  is_whitespace c = false
  /\ Ascii.eqb c "x" || Ascii.eqb c "X" = false
  /\ Ascii.eqb c "o" || Ascii.eqb c "O" = false
  /\ Ascii.eqb c "b" || Ascii.eqb c "B" = false.
Proof.
  destruct c as [[] [] [] [] [] [] [] []]; vm_compute; intros H;
    solve [discriminate H | repeat split].
Qed.

Lemma digit_facts (c : ascii) :
  is_digit c = true ->
  Ascii.eqb c "-" = false /\ Ascii.eqb c "+" = false
  /\ c <> "I"%char /\ coordinate_char c = true.
Proof.
  destruct c as [[] [] [] [] [] [] [] []]; vm_compute; intros H;
    solve [discriminate H | repeat split; discriminate].
Qed.

Lemma scan_unsigned_decimal_coordinate (d : ascii) (ds dot frac : string) :
  is_digit d = true -> string_forall is_digit ds = true ->
  dot = "" \/ dot = "." -> string_forall is_digit frac = true ->
  exists q, scan_unsigned_decimal (String d ds ++ dot ++ frac) = Some (q, "").
Proof.
  intros Hd Hds Hdot Hfrac. unfold scan_unsigned_decimal.
  destruct Hdot as [-> | ->].
  - cbn [append]. change (String d (ds ++ frac)) with (String d ds ++ frac).
    rewrite span_digits_all
      by (rewrite string_forall_app; cbn; now rewrite Hd, Hds, Hfrac).
    cbn. eauto.
  - change (String d ds ++ "." ++ frac)
      with (String d ds ++ String "." frac).
    rewrite span_digits_until by (cbn; now rewrite ?Hd, ?Hds).
    rewrite (span_digits_all frac Hfrac). cbn. eauto.
Qed.

Lemma scan_decimal_unsigned (d : ascii) (r : string) (q : Q) :
  is_digit d = true ->
  scan_unsigned_decimal (String d r) = Some (q, "") ->
  scan_decimal (String d r) = Some (Finite q, "")
  /\ scan_decimal (String "-" (String d r)) = Some (Finite (Qred (- q)), "").
Proof.
  intros Hd Hs. destruct (digit_facts d Hd) as (Hm & Hp & HI & _).
  assert (Hpre : String.prefix "Infinity" (String d r) = false).
  { cbn [String.prefix].
    destruct (ascii_dec "I" d); [congruence|reflexivity]. }
  unfold scan_decimal, scan_sign.
  rewrite Hm, Hp, Ascii.eqb_refl, Hpre, Hs. split; reflexivity.
Qed.

(** [Number] of a coordinate literal is a number: the result of a
    coordinate search never holds NaN. *)
Lemma Number_coordinate_not_NaN (a : string) :
  lang coordinatePart a -> isNaN (Number_ a) = false.
Proof.
  intros Ha.
  assert (Htrim : trim a = a).
  { apply trim_no_whitespace. apply lang_coordinatePart_chars in Ha.
    revert Ha. apply string_forall_weaken. intros c Hc.
    now rewrite (proj1 (coordinate_char_facts c Hc)). }
  pose proof (lang_coordinatePart_chars a Ha) as Hchars.
  destruct (coordinatePart_shape a Ha)
    as (sign & d & ds & dot & frac & E & Hsign & Hd & Hds & Hdot & Hfrac).
  destruct (scan_unsigned_decimal_coordinate d ds dot frac Hd Hds Hdot Hfrac)
    as (q & Hscan).
  cbn [append] in Hscan.
  destruct (scan_decimal_unsigned d _ q Hd Hscan) as (Hplain & Hminus).
  unfold Number_. rewrite Htrim.
  destruct Hsign as [-> | ->]; cbn [append] in E; subst a.
  - cbn [String.eqb].
    assert (Hradix : non_decimal_radix (String d (ds ++ dot ++ frac)) = None).
    { unfold non_decimal_radix.
      destruct (ds ++ dot ++ frac)%string as [|c r] eqn:Er; [reflexivity|].
      cbn [string_forall] in Hchars.
      apply andb_true_iff in Hchars as [_ Hchars].
      apply andb_true_iff in Hchars as [Hc _].
      destruct (coordinate_char_facts c Hc) as (_ & -> & -> & ->).
      now destruct (negb (Ascii.eqb d "0")). }
    rewrite Hradix, Hplain. reflexivity.
  - cbn [String.eqb Ascii.eqb Bool.eqb].
    assert (Hradix : non_decimal_radix
                       (String "-" (String d (ds ++ dot ++ frac))) = None)
      by reflexivity.
    rewrite Hradix, Hminus. reflexivity.
Qed.

(** ** Forward geocoding *)

Lemma commit_handleSearch (s : WizardState) (searchTerm : string) :
  let location := geocodeLocation searchTerm in
  let s' := commit (fst (handleSearch s searchTerm)) s in
  mapCenter s' = (lat location, lng location)
  /\ mapZoom s' = 15
  /\ (currentStep s = 0 ->
      projectLocation s' = Some (lat location, lng location)).
Proof.
  unfold handleSearch.
  destruct (currentStep s =? 0) eqn:E0;
    [destruct (coordPattern_test searchTerm)|];
    cbn; repeat split; try reflexivity.
  intros H0. rewrite H0 in E0. discriminate.
Qed.

(** C9.  A search term that does not match the coordinate pattern is
    geocoded to the fixed pair (40.7128, -74.0060): [geocodeLocation]
    depends on nothing but the term and consults no service, so every such
    search centres the map there (and, on step 0, puts the project
    location there); the only request the search starts is the address
    lookup for that fixed pair. *)
Theorem C9_non_coordinate_search_is_new_york
  (searchTerm : string) (Hno : coordPattern_test searchTerm = false)
  (s : WizardState) :
  let s' := commit (fst (handleSearch s searchTerm)) s in
  geocodeLocation searchTerm
  = {| lat := decimal 407128 4; lng := decimal (-740060) 4 |}
  /\ mapCenter s' = (decimal 407128 4, decimal (-740060) 4)
  /\ (currentStep s = 0 ->
      projectLocation s' = Some (decimal 407128 4, decimal (-740060) 4)
      /\ snd (handleSearch s searchTerm)
         = Some (AwaitReverseGeocode (decimal 407128 4) (decimal (-740060) 4)
                   (VString searchTerm)))
  /\ (currentStep s <> 0 -> snd (handleSearch s searchTerm) = None).
Proof.
  assert (Hg : geocodeLocation searchTerm = nyc).
  { unfold geocodeLocation. now rewrite Hno. }
  destruct (commit_handleSearch s searchTerm) as (Hc & _ & Hp).
  rewrite Hg in Hc, Hp.
  split; [exact Hg|]. split; [exact Hc|]. split.
  - intros H0. split; [exact (Hp H0)|].
    unfold handleSearch. rewrite H0, Hno, Hg. reflexivity.
  - intros Hn. unfold handleSearch.
    destruct (Z.eqb_spec (currentStep s) 0); [contradiction|reflexivity].
Qed.

Lemma C9_non_coordinate_search_witness :
  geocodeLocation "Paris, France"
  = {| lat := decimal 407128 4; lng := decimal (-740060) 4 |}
  /\ mapCenter (commit (fst (handleSearch initialState "Paris, France"))
                       initialState)
     = (decimal 407128 4, decimal (-740060) 4).
Proof.
  pose proof (C9_non_coordinate_search_is_new_york
                "Paris, France" eq_refl initialState) as H.
  exact (conj (proj1 H) (proj1 (proj2 H))).
Defined.

(** C10.  A search term that matches the coordinate pattern is [a,b] for
    two coordinate literals [a] and [b]; [geocodeLocation] returns the
    numbers [Number(a)] and [Number(b)] whatever their size, and on step 0
    [handleSearch] stores that pair unchanged as the project location and
    as the map centre.  For the term "999,999" the stored latitude is
    outside [-90, 90] and the stored longitude outside [-180, 180]. *)
Theorem C10_coordinate_search_is_not_range_checked
  (searchTerm : string) (Hyes : coordPattern_test searchTerm = true)
  (s : WizardState) (H0 : currentStep s = 0) :
  let s' := commit (fst (handleSearch s searchTerm)) s in
  (exists a b,
     searchTerm = (a ++ "," ++ b)%string
     /\ lang coordinatePart a /\ lang coordinatePart b
     /\ isNaN (Number_ a) = false /\ isNaN (Number_ b) = false
     /\ geocodeLocation searchTerm = {| lat := Number_ a; lng := Number_ b |}
     /\ projectLocation s' = Some (Number_ a, Number_ b)
     /\ mapCenter s' = (Number_ a, Number_ b))
  /\ (let t := commit (fst (handleSearch initialState "999,999"))
                      initialState in
      coordPattern_test "999,999" = true
      /\ projectLocation t = Some (ofZ 999, ofZ 999)
      /\ mapCenter t = (ofZ 999, ofZ 999)
      /\ ~ within (-90) 90 (ofZ 999)
      /\ ~ within (-180) 180 (ofZ 999)).
Proof.
  split.
  - destruct (split_coordPattern searchTerm Hyes) as (a & b & E & Ha & Hb & Hs).
    assert (Hg : geocodeLocation searchTerm
                 = {| lat := Number_ a; lng := Number_ b |}).
    { unfold geocodeLocation. rewrite Hyes, Hs. reflexivity. }
    destruct (commit_handleSearch s searchTerm) as (Hc & _ & Hp).
    rewrite Hg in Hc, Hp.
    exists a, b. repeat split; auto using Number_coordinate_not_NaN.
  - repeat split; try (vm_compute; reflexivity).
    + intros [_ H]. vm_compute in H. now apply H.
    + intros [_ H]. vm_compute in H. now apply H.
Qed.

Lemma C10_coordinate_search_witness :
  exists a b,
    "51.5,-0.1275" = (a ++ "," ++ b)%string
    /\ geocodeLocation "51.5,-0.1275"
       = {| lat := Number_ a; lng := Number_ b |}.
Proof.
  destruct (proj1 (C10_coordinate_search_is_not_range_checked
                     "51.5,-0.1275" eq_refl initialState eq_refl))
    as (a & b & E & _ & _ & _ & _ & Hg & _).
  exists a, b. exact (conj E Hg).
Defined.

(** ** Reverse geocoding *)

Lemma reverseGeocode_normal (outcome : FetchOutcome) (la ln : number) :
  exists address, reverseGeocode outcome la ln = Normal address.
Proof.
  unfold reverseGeocode.
  destruct outcome as [e|[|] [data|e]]; cbn; eauto.
  destruct (get_display_name data) as [name|e]; cbn; eauto.
Qed.

(** C2.  Whatever the request does, [reverseGeocode] completes normally:
    no error reaches its caller.  When the request fails, by a rejected
    [fetch] (a network error) or by a response that is not OK, the value
    returned is the fallback text made of [lat.toFixed(6)], a comma and a
    space, and [lng.toFixed(6)]. *)
Theorem C2_reverse_geocode_failure_falls_back
  (outcome : FetchOutcome) (la ln : number) :
  (exists address, reverseGeocode outcome la ln = Normal address)
  /\ (request_failed outcome = true ->
      reverseGeocode outcome la ln
      = Normal (VString (toFixed la 6 ++ ", " ++ toFixed ln 6))).
Proof.
  split; [apply reverseGeocode_normal|].
  destruct outcome as [e|[|] json]; cbn [request_failed negb];
    [reflexivity|discriminate|reflexivity].
Qed.

Lemma C2_reverse_geocode_witness :
  reverseGeocode (FetchRejects NetworkError)
                 (decimal 407128 4) (decimal (-740060) 4)
  = Normal (VString "40.712800, -74.006000")
  /\ reverseGeocode (FetchResponds false (Normal sample_place))
                    (decimal 407128 4) (decimal (-740060) 4)
     = Normal (VString "40.712800, -74.006000").
Proof.
  split.
  - exact (proj2 (C2_reverse_geocode_failure_falls_back
                    (FetchRejects NetworkError)
                    (decimal 407128 4) (decimal (-740060) 4)) eq_refl).
  - exact (proj2 (C2_reverse_geocode_failure_falls_back
                    (FetchResponds false (Normal sample_place))
                    (decimal 407128 4) (decimal (-740060) 4)) eq_refl).
Defined.

(** C3 as stated fails.  An OK response does not always yield the display
    name: the service answers a point it cannot resolve with status 200
    and a body without a [display_name]; the value returned is then the
    fallback text, not the (undefined) field. *)
Lemma C3_ok_response_without_display_name :
  get_display_name sample_unresolved = Normal VUndefined
  /\ reverseGeocode (FetchResponds true (Normal sample_unresolved))
                    (lat sample_click) (lng sample_click)
     = Normal (VString "51.900000, -0.127500")
  /\ reverseGeocode (FetchResponds true (Normal sample_unresolved))
                    (lat sample_click) (lng sample_click)
     <> get_display_name sample_unresolved.
Proof.
  split; [reflexivity|]. split; [vm_compute; reflexivity|].
  vm_compute. discriminate.
Qed.

(** The same happens when the field is present and empty. *)
Example ok_response_with_empty_display_name :
  reverseGeocode
    (FetchResponds true (Normal (VObject [("display_name", VString "")])))
    (lat sample_click) (lng sample_click)
  = Normal (VString "51.900000, -0.127500").
Proof. vm_compute. reflexivity. Qed.

(** C3, amended.  For an OK response whose body parses to a value with a
    truthy [display_name] (a non-empty string, in particular),
    [reverseGeocode] returns that display name.  When the field is
    missing or falsy, or when the body cannot be parsed or read, it
    returns the fallback text. *)
Theorem C3_ok_response_display_name
  (json : Completion JSValue) (la ln : number) :
  (forall data name,
     json = Normal data -> get_display_name data = Normal name ->
     truthy name = true ->
     reverseGeocode (FetchResponds true json) la ln = Normal name)
  /\ (forall props text,
        json = Normal (VObject props) ->
        lookup_property "display_name" props = VString text ->
        text <> "" ->
        reverseGeocode (FetchResponds true json) la ln
        = Normal (VString text))
  /\ (forall data name,
        json = Normal data -> get_display_name data = Normal name ->
        truthy name = false ->
        reverseGeocode (FetchResponds true json) la ln
        = Normal (VString (coordinateText la ln)))
  /\ (forall data e,
        json = Normal data -> get_display_name data = Throw e ->
        reverseGeocode (FetchResponds true json) la ln
        = Normal (VString (coordinateText la ln)))
  /\ (forall e,
        json = Throw e ->
        reverseGeocode (FetchResponds true json) la ln
        = Normal (VString (coordinateText la ln))).
Proof.
  assert (Htruthy : forall data name,
            json = Normal data -> get_display_name data = Normal name ->
            truthy name = true ->
            reverseGeocode (FetchResponds true json) la ln = Normal name).
  { intros data name -> Hname Ht. unfold reverseGeocode.
    cbn [bind try_catch]. rewrite Hname. cbn [bind].
    unfold js_or. rewrite Ht. reflexivity. }
  split; [exact Htruthy|]. split; [|split; [|split]].
  - intros props text Hj Hl Hne.
    apply (Htruthy (VObject props)); [exact Hj|cbn; now rewrite Hl|].
    cbn. destruct (String.eqb_spec text ""); [contradiction|reflexivity].
  - intros data name -> Hname Hf. unfold reverseGeocode.
    cbn [bind try_catch]. rewrite Hname. cbn [bind].
    unfold js_or. rewrite Hf. reflexivity.
  - intros data e -> Hname. unfold reverseGeocode.
    cbn [bind try_catch]. rewrite Hname. reflexivity.
  - intros e ->. reflexivity.
Qed.

Lemma C3_ok_response_witness :
  reverseGeocode (FetchResponds true (Normal sample_place))
                 (lat sample_click) (lng sample_click)
  = Normal (VString "10 Downing Street, London").
Proof.
  refine (proj1 (proj2 (C3_ok_response_display_name
                          (Normal sample_place)
                          (lat sample_click) (lng sample_click)))
                _ "10 Downing Street, London" eq_refl eq_refl _).
  discriminate.
Defined.

(** ** The coordinate tooltip *)

Lemma range_check_within (lo hi : Z) (v : number) :
  negb (isNaN v) && number_ge v (ofZ lo) && number_le v (ofZ hi) = true
  <-> within lo hi v.
Proof.
  destruct v as [|[|]|q]; cbn; try (split; [discriminate|tauto]).
  rewrite andb_true_iff, !Qle_bool_iff. reflexivity.
Qed.

Lemma range_check_outside (lo hi : Z) (v : number) :
  ~ within lo hi v ->
  negb (isNaN v) && number_ge v (ofZ lo) && number_le v (ofZ hi) = false.
Proof.
  intros H. apply not_true_is_false. now rewrite range_check_within.
Qed.

Lemma tooltip_edit_accepted (m : Machine) (position : Coord)
  (handler : Coord -> string -> string * option (number * number))
  (value : string) (la ln : number) :
  projectLocation (ui m) = Some position ->
  snd (handler position value) = Some (la, ln) ->
  projectLocation (ui (tooltip_edit m handler value)) = Some (la, ln).
Proof.
  intros Hpos Hcall. unfold tooltip_edit. rewrite Hpos, Hcall.
  cbn; reflexivity.
Qed.

Lemma tooltip_edit_rejected (m : Machine) (position : Coord)
  (handler : Coord -> string -> string * option (number * number))
  (value : string) :
  projectLocation (ui m) = Some position ->
  snd (handler position value) = None ->
  tooltip_edit m handler value = m.
Proof.
  intros Hpos Hcall. unfold tooltip_edit. now rewrite Hpos, Hcall.
Qed.

(** C7.  An edit of the tooltip's latitude box changes the position only
    when [parseFloat] of the text is a number of [-90, 90], and then only
    the latitude: the longitude is kept.  Otherwise (the text is not
    numeric, so the parse is NaN, or the number is out of range) the
    handler does not call [onPositionChange] and the component's state is
    left as it was.  The longitude box behaves the same with
    [-180, 180], keeping the latitude. *)
Theorem C7_tooltip_edits_are_range_checked
  (m : Machine) (position : Coord)
  (Hpos : projectLocation (ui m) = Some position) (value : string) :
  let v := parseFloat value in
  (within (-90) 90 v ->
     snd (handleLatChange position value) = Some (v, snd position)
     /\ projectLocation (ui (fst (step m (LatInput value))))
        = Some (v, snd position))
  /\ (~ within (-90) 90 v ->
     snd (handleLatChange position value) = None
     /\ fst (step m (LatInput value)) = m)
  /\ (within (-180) 180 v ->
     snd (handleLngChange position value) = Some (fst position, v)
     /\ projectLocation (ui (fst (step m (LngInput value))))
        = Some (fst position, v))
  /\ (~ within (-180) 180 v ->
     snd (handleLngChange position value) = None
     /\ fst (step m (LngInput value)) = m)
  /\ (isNaN v = true -> ~ within (-90) 90 v /\ ~ within (-180) 180 v).
Proof.
  intros v. split; [|split; [|split; [|split]]].
  - intros Hin.
    assert (Hcall : snd (handleLatChange position value)
                    = Some (v, snd position)).
    { unfold handleLatChange. cbn [snd]. fold v.
      apply range_check_within in Hin. now rewrite Hin. }
    split; [exact Hcall|].
    cbn [step fst]. now apply (tooltip_edit_accepted m position).
  - intros Hout.
    assert (Hcall : snd (handleLatChange position value) = None).
    { unfold handleLatChange. cbn [snd]. fold v.
      now rewrite (range_check_outside _ _ _ Hout). }
    split; [exact Hcall|].
    cbn [step fst]. now apply (tooltip_edit_rejected m position).
  - intros Hin.
    assert (Hcall : snd (handleLngChange position value)
                    = Some (fst position, v)).
    { unfold handleLngChange. cbn [snd]. fold v.
      apply range_check_within in Hin. now rewrite Hin. }
    split; [exact Hcall|].
    cbn [step fst]. now apply (tooltip_edit_accepted m position).
  - intros Hout.
    assert (Hcall : snd (handleLngChange position value) = None).
    { unfold handleLngChange. cbn [snd]. fold v.
      now rewrite (range_check_outside _ _ _ Hout). }
    split; [exact Hcall|].
    cbn [step fst]. now apply (tooltip_edit_rejected m position).
  - destruct v; cbn; try discriminate. tauto.
Qed.

Lemma C7_tooltip_edits_witness :
  let m := fst (step initialMachine (MapClick sample_click)) in
  projectLocation (ui (fst (step m (LatInput "45.5"))))
  = Some (decimal 455 1, lng sample_click)
  /\ fst (step m (LatInput "91")) = m
  /\ fst (step m (LatInput "north")) = m
  /\ projectLocation (ui (fst (step m (LngInput "-170"))))
     = Some (lat sample_click, ofZ (-170)).
Proof.
  intros m.
  assert (Hpos : projectLocation (ui m)
                 = Some (lat sample_click, lng sample_click))
    by (vm_compute; reflexivity).
  split; [|split; [|split]].
  - refine (proj2 (proj1 (C7_tooltip_edits_are_range_checked
                            m _ Hpos "45.5") _)).
    vm_compute. split; discriminate.
  - refine (proj2 (proj1 (proj2 (C7_tooltip_edits_are_range_checked
                                   m _ Hpos "91")) _)).
    vm_compute. intros [_ H]. now apply H.
  - refine (proj2 (proj1 (proj2 (C7_tooltip_edits_are_range_checked
                                   m _ Hpos "north")) _)).
    vm_compute. tauto.
  - refine (proj2 (proj1 (proj2 (proj2 (C7_tooltip_edits_are_range_checked
                                          m _ Hpos "-170"))) _)).
    vm_compute. split; discriminate.
Defined.

(** * More of the component *)

(** ** Addresses *)

Lemma coordinateText_not_empty (la ln : number) :
  String.eqb (coordinateText la ln) "" = false.
Proof.
  unfold coordinateText.
  destruct (toFixed la 6) as [|c r]; reflexivity.
Qed.

Lemma SearchInput_handleSubmit_not_empty (searchValue searchTerm : string) :
  SearchInput_handleSubmit searchValue = Some searchTerm ->
  String.eqb searchTerm "" = false.
Proof.
  unfold SearchInput_handleSubmit.
  destruct (String.eqb (trim searchValue) "") eqn:E; [discriminate|].
  now intros [= <-].
Qed.

Lemma reverseGeocode_truthy (outcome : FetchOutcome) (la ln : number) :
  exists address,
    reverseGeocode outcome la ln = Normal address /\ truthy address = true.
Proof.
  assert (Hf : truthy (VString (coordinateText la ln)) = true).
  { cbn [truthy]. now rewrite coordinateText_not_empty. }
  unfold reverseGeocode.
  destruct outcome as [e|[|] [data|e]]; cbn [bind try_catch];
    try (eexists; split; [reflexivity|exact Hf]).
  destruct (get_display_name data) as [name|e]; cbn [bind];
    try (eexists; split; [reflexivity|exact Hf]).
  unfold js_or. destruct (truthy name) eqn:Hn;
    eexists; (split; [reflexivity|assumption]).
Qed.

(** ** Invariants of the reachable states *)

Lemma wizard_invariant_initial : wizard_invariant initialState.
Proof.
  split.
  - left; reflexivity.
  - reflexivity.
  - left; reflexivity.
  - intros H. change (1 <= 0) in H. lia.
  - reflexivity.
  - left; reflexivity.
Qed.

Lemma wizard_invariant_step (m : Machine) (e : Event) :
  wizard_invariant (ui m) -> enabled m e = true ->
  wizard_invariant (ui (fst (step m e))).
Proof.
  destruct m as [[cs im mc mz pl [ec er] bl br sa] pend].
  intros [Hs Hr Hz Hl Hun Ha] Hen.
  unfold step_in_range in Hs.
  cbn [ui currentStep radius projectExtent mapZoom projectLocation center
       buildingRotation buildingLocation searchAddress] in *.
  destruct e; cbn [step fst snd run ui enabled] in *.
  - unfold handleMapClick, when.
    cbn [currentStep interactionMode].
    destruct (cs =? 0) eqn:E0; [|destruct (cs =? 1) eqn:E1;
                                  [|destruct (cs =? 2) eqn:E2]];
      destruct (InteractionMode_eqb im center_mode);
      invariant_holds.
  - destruct type; cbn [handleMarkerDrag fst] in *; invariant_holds.
  - destruct (SearchInput_handleSubmit searchValue) as [term|] eqn:Et;
      cbn [fst ui].
    + unfold handleSearch. cbn [currentStep].
      destruct (cs =? 0) eqn:E0; [destruct (coordPattern_test term)|];
        invariant_holds.
      right. cbn. now rewrite (SearchInput_handleSubmit_not_empty _ _ Et).
    + invariant_holds.
  - unfold tooltip_edit. cbn [ui projectLocation].
    destruct pl as [position|]; [|invariant_holds].
    destruct (snd (handleLatChange position value)) as [[la ln]|];
      [unfold handleCoordinateChange|]; invariant_holds.
  - unfold tooltip_edit. cbn [ui projectLocation].
    destruct pl as [position|]; [|invariant_holds].
    destruct (snd (handleLngChange position value)) as [[la ln]|];
      [unfold handleCoordinateChange|]; invariant_holds.
  - invariant_holds.
  - unfold rotationControl_visible in Hen. cbn in Hen.
    destruct bl as [b|]; [|now rewrite andb_false_r in Hen].
    invariant_holds.
  - unfold rotationControl_visible in Hen. cbn in Hen.
    destruct bl as [b|]; [|now rewrite andb_false_r in Hen].
    invariant_holds.
  - unfold nextDisabled, canProceed in Hen.
    cbn [currentStep projectLocation projectExtent center] in Hen.
    unfold handleNext, when, steps_length. cbn [currentStep projectLocation].
    destruct (cs <? 3 - 1) eqn:Elt; cbn [fst snd].
    + destruct pl as [p|]; destruct (cs =? 0) eqn:E0;
        cbn [isSome] in Hen; try discriminate Hen;
        try destruct (cs + 1 =? 1) eqn:E1;
        invariant_holds.
    + invariant_holds.
  - unfold handlePrevious, when. cbn [currentStep].
    destruct (0 <? cs) eqn:E; invariant_holds.
  - cbn [pending].
    destruct (nth_error pend i) as [[la ln onThrow]|]; cbn [fst ui].
    + unfold resume.
      destruct (reverseGeocode_truthy outcome la ln) as (address & Hrg & Ht).
      rewrite Hrg. invariant_holds.
    + invariant_holds.
Qed.

Lemma reachable_invariant (m : Machine) :
  reachable m -> wizard_invariant (ui m).
Proof.
  induction 1 as [|m e _ IH He].
  - exact wizard_invariant_initial.
  - now apply wizard_invariant_step.
Qed.

(** X1.  Whatever the request does, the address that [reverseGeocode]
    returns is truthy: it is never undefined, null or the empty string.
    The [catch] blocks that the four handlers put around the call are
    therefore never entered: when the request settles, the search address
    becomes exactly the value returned. *)
Theorem X1_reverse_geocode_address_is_truthy
  (outcome : FetchOutcome) (la ln : number) (onThrow : JSValue) :
  exists address,
    reverseGeocode outcome la ln = Normal address
    /\ truthy address = true
    /\ resume (AwaitReverseGeocode la ln onThrow) outcome
       = [setSearchAddress address].
Proof.
  destruct (reverseGeocode_truthy outcome la ln) as (address & Hrg & Ht).
  exists address. repeat split; try assumption.
  unfold resume. now rewrite Hrg.
Qed.

(** X2.  Once the wizard has left step 0 the project location and the
    centre of the extent are set and stay set, so [canProceed] is true on
    steps 1 and 2: after step 0 the Next (or Finish) button is never
    disabled. *)
Theorem X2_next_is_never_disabled_after_step_0
  (m : Machine) (Hm : reachable m) (H1 : 1 <= currentStep (ui m)) :
  projectLocation (ui m) <> None
  /\ center (projectExtent (ui m)) <> None
  /\ canProceed (ui m) = true
  /\ nextDisabled (ui m) = false
  /\ enabled m NextClick = true.
Proof.
  destruct (reachable_invariant m Hm) as [_ _ _ Hl _ _].
  destruct (Hl H1) as [Hp Hc].
  assert (Hcan : canProceed (ui m) = true).
  { unfold canProceed.
    destruct (Z.eqb_spec (currentStep (ui m)) 0); [lia|].
    destruct (currentStep (ui m) =? 1); [|reflexivity].
    now destruct (center (projectExtent (ui m))). }
  repeat split; try assumption.
  - unfold nextDisabled. now rewrite Hcan.
  - cbn [enabled]. unfold nextDisabled. now rewrite Hcan.
Qed.

Lemma X2_next_is_never_disabled_witness :
  exists m, deliver [MapClick sample_click; NextClick] initialMachine = Some m
            /\ currentStep (ui m) = 1 /\ canProceed (ui m) = true.
Proof.
  destruct (deliver [MapClick sample_click; NextClick] initialMachine)
    as [m|] eqn:E; [|vm_compute in E; discriminate].
  exists m. split; [reflexivity|].
  pose proof (deliver_reachable _ _ _ reachable_initial E) as Hm.
  assert (H1 : currentStep (ui m) = 1)
    by (vm_compute in E; inversion E; subst m; reflexivity).
  split; [exact H1|].
  refine (proj1 (proj2 (proj2
            (X2_next_is_never_disabled_after_step_0 m Hm _)))).
  rewrite H1. lia.
Defined.

Lemma Event_rotate_dec (e : Event) :
  {e = RotateLeftClick} + {e = RotateRightClick}
  + {e <> RotateLeftClick /\ e <> RotateRightClick}.
Proof.
  destruct e; try (right; split; discriminate);
    [left; left; reflexivity | left; right; reflexivity].
Qed.

Lemma rotation_frame (m : Machine) (e : Event) :
  e <> RotateLeftClick -> e <> RotateRightClick ->
  buildingRotation (ui (fst (step m e))) = buildingRotation (ui m).
Proof.
  intros Hl Hr. destruct e; cbn [step fst snd run ui]; try congruence.
  - unfold handleMapClick. case_guards; cbn; reflexivity.
  - destruct type; cbn; reflexivity.
  - destruct (SearchInput_handleSubmit searchValue); [|reflexivity].
    unfold handleSearch. case_guards; cbn; reflexivity.
  - unfold tooltip_edit.
    destruct (projectLocation (ui m)) as [position|]; [|reflexivity].
    destruct (snd (handleLatChange position value)) as [[la ln]|];
      cbn; reflexivity.
  - unfold tooltip_edit.
    destruct (projectLocation (ui m)) as [position|]; [|reflexivity].
    destruct (snd (handleLngChange position value)) as [[la ln]|];
      cbn; reflexivity.
  - cbn; reflexivity.
  - unfold handleNext. case_guards; cbn; reflexivity.
  - unfold handlePrevious. case_guards; cbn; reflexivity.
  - destruct (nth_error (pending m) i) as [[la ln onThrow]|]; [|reflexivity].
    cbn [fst ui resume].
    destruct (reverseGeocode outcome la ln); cbn; reflexivity.
Qed.

(** X3.  In every reachable state the building rotation is 0 as long as
    no building has been placed, and no event other than the two buttons
    of the stepper changes it: the stepper is the only writer, and it is
    on screen only with a building.  A rotation that is an integer
    multiple of 15 with [|z| + 15 < 2^53] is, after any event, again an
    integer multiple of 15, at most 15 away. *)
Theorem X3_rotation_is_written_by_the_stepper_only
  (m : Machine) (Hm : reachable m) :
  (buildingLocation (ui m) = None ->
   buildingRotation (ui m) = binary64_of_Z 0)
  /\ (forall e, enabled m e = true ->
        e <> RotateLeftClick -> e <> RotateRightClick ->
        buildingRotation (ui (fst (step m e))) = buildingRotation (ui m))
  /\ (forall e z,
        buildingRotation (ui m) = binary64_of_Z z ->
        (15 | z) -> Z.abs z + 15 < 2 ^ 53 ->
        exists z',
          buildingRotation (ui (fst (step m e))) = binary64_of_Z z'
          /\ integer_value (buildingRotation (ui (fst (step m e)))) = Some z'
          /\ (15 | z') /\ Z.abs (z' - z) <= 15).
Proof.
  destruct (reachable_invariant m Hm) as [_ _ _ _ Hun _].
  split; [exact Hun|]. split; [intros e _; apply rotation_frame|].
  intros e z Hz Hdiv Hb.
  assert (Hexact : forall z', Z.abs z' < 2 ^ 53 ->
            buildingRotation (ui (fst (step m e))) = binary64_of_Z z' ->
            integer_value (buildingRotation (ui (fst (step m e))))
            = Some z').
  { intros z' Hz' ->. now apply integer_value_of_Z. }
  destruct (Event_rotate_dec e) as [[-> | ->]|[Hl Hr]].
  - exists (z - 15).
    assert (E : buildingRotation (ui (fst (step m RotateLeftClick)))
                = binary64_of_Z (z - 15)).
    { rewrite step_rotate_left, Hz.
      apply binary64_sub_exact; [lia|reflexivity|lia]. }
    split; [exact E|]. split; [apply Hexact; [lia|exact E]|].
    split; [apply Z.divide_sub_r; [assumption|apply Z.divide_refl]|lia].
  - exists (z + 15).
    assert (E : buildingRotation (ui (fst (step m RotateRightClick)))
                = binary64_of_Z (z + 15)).
    { rewrite step_rotate_right, Hz.
      apply binary64_add_exact; [lia|reflexivity|lia]. }
    split; [exact E|]. split; [apply Hexact; [lia|exact E]|].
    split; [apply Z.divide_add_r; [assumption|apply Z.divide_refl]|lia].
  - exists z.
    assert (E : buildingRotation (ui (fst (step m e))) = binary64_of_Z z)
      by (rewrite rotation_frame; assumption).
    split; [exact E|]. split; [apply Hexact; [lia|exact E]|].
    split; [assumption|lia].
Qed.

Lemma X3_rotation_witness :
  exists m,
    deliver (place_building ++ [RotateRightClick; RotateRightClick])%list
            initialMachine = Some m
    /\ buildingRotation (ui m) = binary64_of_Z 30
    /\ exists z',
         integer_value
           (buildingRotation (ui (fst (step m RotateLeftClick)))) = Some z'
         /\ (15 | z').
Proof.
  destruct (deliver (place_building ++ [RotateRightClick; RotateRightClick])
                    initialMachine) as [m|] eqn:E;
    [|vm_compute in E; discriminate].
  exists m. split; [reflexivity|].
  pose proof (deliver_reachable _ _ _ reachable_initial E) as Hm.
  assert (Hr : buildingRotation (ui m) = binary64_of_Z 30)
    by (vm_compute in E; inversion E; subst m; reflexivity).
  split; [exact Hr|].
  assert (Hdiv : (15 | 30)) by (exists 2; reflexivity).
  assert (Hb : Z.abs 30 + 15 < 2 ^ 53) by (cbn; lia).
  destruct (proj2 (proj2 (X3_rotation_is_written_by_the_stepper_only m Hm))
              RotateLeftClick 30 Hr Hdiv Hb)
    as (z' & _ & Hv & Hd & _).
  exists z'. exact (conj Hv Hd).
Defined.

(** X4.  In every reachable state the zoom cell is 4, 14 or 15, never 0,
    so the [zoom || map.getZoom()] of [MapCenter] always takes the cell:
    the view set on the map is the state's centre at the state's zoom,
    whatever zoom the map currently has. *)
Theorem X4_map_view_follows_the_state
  (m : Machine) (Hm : reachable m) (getZoom : Z) :
  (mapZoom (ui m) = 4 \/ mapZoom (ui m) = 14 \/ mapZoom (ui m) = 15)
  /\ wizard_setView (ui m) getZoom = (mapCenter (ui m), mapZoom (ui m))
  /\ MapCenter_setView (mapCenter (ui m)) (Some 0) getZoom
     = (mapCenter (ui m), getZoom)
  /\ MapCenter_setView (mapCenter (ui m)) None getZoom
     = (mapCenter (ui m), getZoom).
Proof.
  destruct (reachable_invariant m Hm) as [_ _ Hz _ _ _].
  split; [exact Hz|]. split; [|split; reflexivity].
  unfold wizard_setView, MapCenter_setView.
  destruct (Z.eqb_spec (mapZoom (ui m)) 0); [lia|reflexivity].
Qed.

Lemma X4_map_view_witness :
  wizard_setView initialState 9 = (mapCenter initialState, 4).
Proof.
  exact (proj1 (proj2 (X4_map_view_follows_the_state
                         initialMachine reachable_initial 9))).
Defined.

(** X5.  In every reachable state the search address is the initial empty
    string or a truthy value: no lookup and no search ever writes
    undefined, null or an empty string into the search box. *)
Theorem X5_search_address_is_empty_or_truthy
  (m : Machine) (Hm : reachable m) :
  searchAddress (ui m) = VString "" \/ truthy (searchAddress (ui m)) = true.
Proof.
  now destruct (reachable_invariant m Hm).
Qed.

Lemma X5_search_address_witness :
  exists m,
    deliver [MapClick sample_click;
             RequestSettles 0 (FetchResponds true (Normal sample_unresolved));
             SearchSubmit " 51.5,-0.1275 ";
             MapClick sample_click;
             RequestSettles 0 (FetchResponds true (Normal sample_place))]
            initialMachine = Some m
    /\ searchAddress (ui m) = VString "10 Downing Street, London"
    /\ (searchAddress (ui m) = VString ""
        \/ truthy (searchAddress (ui m)) = true).
Proof.
  destruct (deliver
              [MapClick sample_click;
               RequestSettles 0
                 (FetchResponds true (Normal sample_unresolved));
               SearchSubmit " 51.5,-0.1275 ";
               MapClick sample_click;
               RequestSettles 0 (FetchResponds true (Normal sample_place))]
              initialMachine) as [m|] eqn:E;
    [|vm_compute in E; discriminate].
  exists m. split; [reflexivity|].
  pose proof (deliver_reachable _ _ _ reachable_initial E) as Hm.
  split; [vm_compute in E; inversion E; subst m; reflexivity|].
  exact (X5_search_address_is_empty_or_truthy m Hm).
Defined.

(** ** Walking between the steps *)

Lemma setCurrentStep_same (s : WizardState) (k : Z) :
  currentStep s = k -> forall j, setCurrentStep k (setCurrentStep j s) = s.
Proof. intros <- j. destruct s; reflexivity. Qed.

Lemma run_without_task (m : Machine) (us : list Update) :
  run m (us, None) = {| ui := commit us (ui m); pending := pending m |}.
Proof. unfold run. cbn [fst snd option_to_list]. now rewrite app_nil_r. Qed.

(** X6.  Between steps 1 and 2 Next and Previous undo each other: from
    step 1, Next followed by Previous gives back the very same state, and
    so does Previous followed by Next from step 2; neither emits a
    result. *)
Theorem X6_next_and_previous_cancel_between_steps_1_and_2 (m : Machine) :
  (currentStep (ui m) = 1 ->
     fst (step (fst (step m NextClick)) PreviousClick) = m
     /\ snd (step m NextClick) = None)
  /\ (currentStep (ui m) = 2 ->
     fst (step (fst (step m PreviousClick)) NextClick) = m
     /\ snd (step (fst (step m PreviousClick)) NextClick) = None).
Proof.
  destruct m as [s pend]. cbn [ui]. split; intros Hs.
  - assert (Hn : handleNext true s = ([setCurrentStep 2], None)).
    { unfold handleNext, when, steps_length. rewrite Hs. cbn.
      now destruct (projectLocation s). }
    cbn [step ui]. rewrite Hn. cbn [fst snd].
    rewrite !run_without_task. cbn [ui pending commit fold_left].
    unfold handlePrevious, when. cbn [currentStep setCurrentStep].
    cbn [Z.ltb Z.compare commit fold_left].
    split; [|reflexivity]. f_equal.
    change (2 - 1) with 1. now apply setCurrentStep_same.
  - assert (Hp : handlePrevious s = [setCurrentStep 1]).
    { unfold handlePrevious, when. rewrite Hs. reflexivity. }
    assert (Hn : handleNext true (setCurrentStep 1 s)
                 = ([setCurrentStep 2], None)).
    { unfold handleNext, when, steps_length. cbn.
      now destruct (projectLocation s). }
    cbn [step ui fst]. rewrite Hp, !run_without_task.
    cbn [ui pending commit fold_left]. rewrite Hn. cbn [fst snd].
    rewrite run_without_task. cbn [ui pending commit fold_left].
    split; [|reflexivity]. f_equal. now apply setCurrentStep_same.
Qed.

Lemma X6_next_and_previous_witness :
  let m := {| ui := setCurrentStep 1 initialState; pending := [] |} in
  fst (step (fst (step m NextClick)) PreviousClick) = m.
Proof.
  intros m.
  exact (proj1 (proj1
           (X6_next_and_previous_cancel_between_steps_1_and_2 m) eq_refl)).
Defined.

(** X7.  Going back from step 1 to step 0 and forward again rebuilds the
    extent from the project location: whatever the extent was, its centre
    is the project location again, the map is centred there and the zoom
    is 14.  An extent that the user moved on step 1 does not survive the
    round trip. *)
Theorem X7_back_and_forth_resets_the_extent
  (m : Machine) (p : Coord)
  (H1 : currentStep (ui m) = 1) (Hp : projectLocation (ui m) = Some p) :
  let back := fst (step m PreviousClick) in
  let again := fst (step back NextClick) in
  enabled back NextClick = true
  /\ currentStep (ui again) = 1
  /\ projectExtent (ui again) = {| center := Some p; radius := 1000 |}
  /\ mapCenter (ui again) = p
  /\ mapZoom (ui again) = 14
  /\ projectLocation (ui again) = Some p.
Proof.
  destruct m as [s pend]. cbn [ui] in *.
  assert (Hprev : handlePrevious s = [setCurrentStep 0]).
  { unfold handlePrevious, when. rewrite H1. reflexivity. }
  cbn [step ui fst]. rewrite Hprev, run_without_task.
  cbn [ui pending commit fold_left].
  assert (Hn : handleNext true (setCurrentStep 0 s)
               = ([setCurrentStep 1; setMapCenter p; setMapZoom 14;
                   setProjectExtent
                     (fun _ => {| center := Some p; radius := 1000 |})],
                  None)).
  { unfold handleNext, when, steps_length. cbn. rewrite Hp. reflexivity. }
  rewrite Hn. cbn [fst snd]. rewrite run_without_task.
  repeat split; cbn; try reflexivity; try assumption.
  unfold nextDisabled, canProceed. cbn. now rewrite Hp.
Qed.

Lemma X7_back_and_forth_witness :
  let m := {| ui := setProjectExtent
                      (fun _ => {| center := Some (ofZ 1, ofZ 2);
                                   radius := 1000 |})
                      (setProjectLocation (Some (ofZ 5, ofZ 6))
                         (setCurrentStep 1 initialState));
              pending := [] |} in
  projectExtent (ui (fst (step (fst (step m PreviousClick)) NextClick)))
  = {| center := Some (ofZ 5, ofZ 6); radius := 1000 |}.
Proof.
  intros m.
  exact (proj1 (proj2 (proj2
           (X7_back_and_forth_resets_the_extent
              m (ofZ 5, ofZ 6) eq_refl eq_refl)))).
Defined.

(** ** Requests *)

(** X8.  After step 0 the component starts no request: on steps other
    than 0 every event that the screen offers leaves the list of pending
    lookups as it is, except that a lookup which settles is removed from
    it. *)
Theorem X8_no_request_is_started_after_step_0
  (m : Machine) (e : Event)
  (Hstep : currentStep (ui m) <> 0) (He : enabled m e = true) :
  match e with
  | RequestSettles i _ => pending (fst (step m e)) = remove_nth i (pending m)
  | _ => pending (fst (step m e)) = pending m
  end.
Proof.
  apply Z.eqb_neq in Hstep.
  destruct e; cbn [step fst snd enabled] in *;
    try (rewrite run_without_task; reflexivity).
  - unfold handleMapClick. rewrite Hstep.
    destruct (currentStep (ui m) =? 1);
      [|destruct (currentStep (ui m) =? 2)];
      rewrite run_without_task; reflexivity.
  - destruct type; cbn [handleMarkerDrag]; rewrite ?Hstep;
      rewrite run_without_task; reflexivity.
  - rewrite Hstep in He. discriminate.
  - rewrite Hstep in He. discriminate.
  - rewrite Hstep in He. discriminate.
  - destruct (handleNext true (ui m)) as [us result]. cbn [fst].
    rewrite run_without_task. reflexivity.
  - apply Nat.ltb_lt in He.
    destruct (nth_error (pending m) i) eqn:E; [reflexivity|].
    apply nth_error_None in E. lia.
Qed.

Lemma X8_no_request_witness :
  let m := {| ui := setCurrentStep 1 initialState; pending := [] |} in
  pending (fst (step m (MapClick sample_click))) = [].
Proof.
  intros m.
  refine (X8_no_request_is_started_after_step_0
            m (MapClick sample_click) _ eq_refl).
  cbn. discriminate.
Defined.

(** X9.  A coordinate search sends nothing over the network: for a term
    that matches the pattern [handleSearch] starts no lookup and puts the
    term itself, unchanged, into the search box.  A term that does not
    match starts, on step 0, exactly one lookup, for the fixed pair. *)
Theorem X9_coordinate_search_starts_no_lookup
  (s : WizardState) (searchTerm : string) (H0 : currentStep s = 0) :
  (coordPattern_test searchTerm = true ->
     snd (handleSearch s searchTerm) = None
     /\ searchAddress (commit (fst (handleSearch s searchTerm)) s)
        = VString searchTerm)
  /\ (coordPattern_test searchTerm = false ->
     snd (handleSearch s searchTerm)
     = Some (AwaitReverseGeocode (lat nyc) (lng nyc) (VString searchTerm))
     /\ searchAddress (commit (fst (handleSearch s searchTerm)) s)
        = searchAddress s).
Proof.
  unfold handleSearch. rewrite H0. cbn [Z.eqb]. split; intros Ht.
  - rewrite Ht. split; cbn; reflexivity.
  - rewrite Ht. unfold geocodeLocation. rewrite Ht. split; cbn; reflexivity.
Qed.

Lemma X9_coordinate_search_witness :
  snd (handleSearch initialState "51.5,-0.1275") = None
  /\ searchAddress (commit (fst (handleSearch initialState "51.5,-0.1275"))
                           initialState)
     = VString "51.5,-0.1275".
Proof.
  exact (proj1 (X9_coordinate_search_starts_no_lookup
                  initialState "51.5,-0.1275" eq_refl) eq_refl).
Defined.

Lemma nth_error_after (A : Type) (l : list A) (a : A) (rest : list A) :
  nth_error (l ++ a :: rest) (List.length l) = Some a.
Proof. induction l as [|x l IH]; cbn; [reflexivity|exact IH]. Qed.

Lemma remove_nth_after (A : Type) (l : list A) (a : A) (rest : list A) :
  remove_nth (List.length l) (l ++ a :: rest) = (l ++ rest)%list.
Proof. induction l as [|x l IH]; cbn; [reflexivity|now rewrite IH]. Qed.

Lemma step_map_click_step_0 (m : Machine) (latlng : LatLng) :
  currentStep (ui m) = 0 ->
  let m' := fst (step m (MapClick latlng)) in
  currentStep (ui m') = 0
  /\ projectLocation (ui m') = Some (lat latlng, lng latlng)
  /\ pending m'
     = (pending m ++
        [AwaitReverseGeocode (lat latlng) (lng latlng)
           (VString (coordinateText (lat latlng) (lng latlng)))])%list.
Proof.
  intros H0. cbn [step fst]. unfold handleMapClick, when. rewrite H0.
  cbn [Z.eqb]. unfold run. cbn [fst snd option_to_list ui pending].
  destruct (InteractionMode_eqb _ _); cbn; repeat split; assumption.
Qed.

Lemma step_request_settles (m : Machine) (before after : list Task)
  (la ln : number) (onThrow : JSValue) (outcome : FetchOutcome) :
  pending m = (before ++ AwaitReverseGeocode la ln onThrow :: after)%list ->
  let m' := fst (step m (RequestSettles (List.length before) outcome)) in
  Normal (searchAddress (ui m')) = reverseGeocode outcome la ln
  /\ projectLocation (ui m') = projectLocation (ui m)
  /\ pending m' = (before ++ after)%list.
Proof.
  intros Hp. cbn [step]. rewrite Hp, nth_error_after, remove_nth_after.
  cbn [fst ui pending resume].
  destruct (reverseGeocode_truthy outcome la ln) as (address & -> & _).
  cbn. repeat split; reflexivity.
Qed.

(** X10.  Lookups are neither cancelled nor matched to the click that
    started them.  After two clicks on step 0, at A and then at B, the
    project location is B; if the lookup for B settles first and the one
    for A second, the search box ends up with the address of A. *)
Theorem X10_late_lookup_overwrites_the_address
  (m : Machine) (A B : LatLng) (outcomeA outcomeB : FetchOutcome)
  (H0 : currentStep (ui m) = 0) :
  let n := List.length (pending m) in
  let clicked := fst (step (fst (step m (MapClick A))) (MapClick B)) in
  let settledB := fst (step clicked (RequestSettles (S n) outcomeB)) in
  let settledA := fst (step settledB (RequestSettles n outcomeA)) in
  enabled clicked (RequestSettles (S n) outcomeB) = true
  /\ enabled settledB (RequestSettles n outcomeA) = true
  /\ projectLocation (ui settledA) = Some (lat B, lng B)
  /\ Normal (searchAddress (ui settledA))
     = reverseGeocode outcomeA (lat A) (lng A)
  /\ pending settledA = pending m.
Proof.
  intros n clicked settledB settledA.
  destruct (step_map_click_step_0 m A H0) as (H0a & _ & Hpa).
  destruct (step_map_click_step_0 _ B H0a) as (_ & Hlb & Hpb).
  fold clicked in Hlb, Hpb. rewrite Hpa, <- app_assoc in Hpb.
  cbn [app] in Hpb.
  set (taskA := AwaitReverseGeocode (lat A) (lng A)
                  (VString (coordinateText (lat A) (lng A)))) in *.
  assert (Hpb' : pending clicked
                 = ((pending m ++ [taskA]) ++
                    AwaitReverseGeocode (lat B) (lng B)
                      (VString (coordinateText (lat B) (lng B))) :: [])%list)
    by (rewrite <- app_assoc; exact Hpb).
  assert (Hn1 : List.length (pending m ++ [taskA]) = S n)
    by (rewrite length_app; cbn; unfold n; lia).
  destruct (step_request_settles clicked _ _ _ _ _ outcomeB Hpb')
    as (_ & HlB & HpB).
  rewrite Hn1 in HlB, HpB. fold settledB in HlB, HpB.
  rewrite app_nil_r in HpB.
  destruct (step_request_settles settledB (pending m) [] _ _ _ outcomeA HpB)
    as (Haddr & HlA & HpA).
  fold n settledA in Haddr, HlA, HpA.
  split; [|split; [|split; [|split]]].
  - cbn [enabled]. rewrite Hpb', length_app, Hn1. cbn.
    apply Nat.ltb_lt. lia.
  - cbn [enabled]. rewrite HpB, length_app. cbn.
    apply Nat.ltb_lt. unfold n. lia.
  - now rewrite HlA, HlB.
  - exact Haddr.
  - now rewrite HpA, app_nil_r.
Qed.

Lemma X10_late_lookup_witness :
  let A := sample_click in
  let B := {| lat := ofZ 10; lng := ofZ 20 |} in
  let clicked := fst (step (fst (step initialMachine (MapClick A)))
                           (MapClick B)) in
  let settledB :=
    fst (step clicked
              (RequestSettles 1 (FetchResponds true (Normal sample_place)))) in
  let settledA :=
    fst (step settledB (RequestSettles 0 (FetchRejects NetworkError))) in
  projectLocation (ui settledA) = Some (ofZ 10, ofZ 20)
  /\ Normal (searchAddress (ui settledA))
     = reverseGeocode (FetchRejects NetworkError) (lat A) (lng A).
Proof.
  intros A B clicked settledB settledA.
  pose proof (X10_late_lookup_overwrites_the_address
                initialMachine A B (FetchRejects NetworkError)
                (FetchResponds true (Normal sample_place)) eq_refl)
    as (_ & _ & Hl & Ha & _).
  exact (conj Hl Ha).
Defined.

(** ** Edits in the tooltip *)

(** X11.  Accepted edits of the two boxes of the tooltip commute: with a
    latitude text in range and a longitude text in range, editing the
    latitude and then the longitude gives the same project location and
    the same map centre as the other order, namely the two parsed
    numbers. *)
Theorem X11_tooltip_edits_commute
  (m : Machine) (position : Coord) (latText lngText : string)
  (Hpos : projectLocation (ui m) = Some position)
  (Hlat : within (-90) 90 (parseFloat latText))
  (Hlng : within (-180) 180 (parseFloat lngText)) :
  let lat_first := fst (step (fst (step m (LatInput latText)))
                             (LngInput lngText)) in
  let lng_first := fst (step (fst (step m (LngInput lngText)))
                             (LatInput latText)) in
  projectLocation (ui lat_first)
  = Some (parseFloat latText, parseFloat lngText)
  /\ projectLocation (ui lng_first) = projectLocation (ui lat_first)
  /\ mapCenter (ui lat_first) = (parseFloat latText, parseFloat lngText)
  /\ mapCenter (ui lng_first) = mapCenter (ui lat_first).
Proof.
  assert (Hedit : forall m' pos' handler value la ln,
            projectLocation (ui m') = Some pos' ->
            snd (handler pos' value) = Some (la, ln) ->
            projectLocation (ui (tooltip_edit m' handler value))
            = Some (la, ln)
            /\ mapCenter (ui (tooltip_edit m' handler value)) = (la, ln)).
  { intros m' pos' handler value la ln Hp Hc. unfold tooltip_edit.
    rewrite Hp, Hc. cbn. split; reflexivity. }
  assert (Hla : forall pos', snd (handleLatChange pos' latText)
                             = Some (parseFloat latText, snd pos')).
  { intros pos'. unfold handleLatChange. cbn [snd].
    apply range_check_within in Hlat. now rewrite Hlat. }
  assert (Hln : forall pos', snd (handleLngChange pos' lngText)
                             = Some (fst pos', parseFloat lngText)).
  { intros pos'. unfold handleLngChange. cbn [snd].
    apply range_check_within in Hlng. now rewrite Hlng. }
  cbn [step fst].
  destruct (Hedit m position handleLatChange latText _ _ Hpos (Hla position))
    as (Hp1 & _).
  destruct (Hedit _ _ handleLngChange lngText _ _ Hp1 (Hln _)) as (Hp2 & Hc2).
  destruct (Hedit m position handleLngChange lngText _ _ Hpos (Hln position))
    as (Hq1 & _).
  destruct (Hedit _ _ handleLatChange latText _ _ Hq1 (Hla _)) as (Hq2 & Hd2).
  cbn [fst snd] in *. rewrite Hp2, Hq2, Hc2, Hd2. repeat split.
Qed.

Lemma X11_tooltip_edits_witness :
  let m := fst (step initialMachine (MapClick sample_click)) in
  projectLocation
    (ui (fst (step (fst (step m (LatInput "45.5"))) (LngInput "-170"))))
  = Some (decimal 455 1, ofZ (-170)).
Proof.
  intros m.
  refine (proj1 (X11_tooltip_edits_commute
                   m (lat sample_click, lng sample_click) "45.5" "-170"
                   _ _ _)).
  - vm_compute. reflexivity.
  - vm_compute. split; discriminate.
  - vm_compute. split; discriminate.
Defined.

(** ** Which search terms are coordinates *)

Lemma lang_star_digit_intro (ds : string) :
  string_forall is_digit ds = true -> lang (Star Digit) ds.
Proof.
  induction ds as [|c ds IH]; cbn [string_forall]; intros H.
  - constructor.
  - apply andb_true_iff in H as [Hc Hds].
    exact (lang_star_cons Digit (String c "") ds (lang_digit c Hc) (IH Hds)).
Qed.

Lemma lang_opt_chr_intro (c : ascii) (s : string) :
  s = "" \/ s = String c "" -> lang (Opt (Chr c)) s.
Proof.
  intros [-> | ->]; [apply lang_alt_r|apply lang_alt_l]; constructor.
Qed.

Lemma coordinate_literal_lang (a : string) :
  coordinate_literal a <-> lang coordinatePart a.
Proof.
  split; [|apply coordinatePart_shape].
  intros (sign & d & ds & dot & frac & -> & Hsign & Hd & Hds & Hdot & Hfrac).
  unfold coordinatePart, Plus.
  apply lang_seq; [now apply lang_opt_chr_intro|].
  apply lang_seq.
  - exact (lang_seq Digit (Star Digit) (String d "") ds
             (lang_digit d Hd) (lang_star_digit_intro ds Hds)).
  - apply lang_seq; [now apply lang_opt_chr_intro
                    |now apply lang_star_digit_intro].
Qed.

(** X16.  The search terms that [coordPattern] accepts are exactly the
    strings [a,b] in which [a] and [b] are each an optional minus, one or
    more digits, an optional dot and zero or more digits.  In particular
    a term with a blank, a plus sign, an exponent, a leading dot or a
    third component is not a coordinate search. *)
Theorem X16_coordinate_terms_characterised (searchTerm : string) :
  coordPattern_test searchTerm = true
  <-> exists a b, searchTerm = (a ++ "," ++ b)%string
                  /\ coordinate_literal a /\ coordinate_literal b.
Proof.
  split.
  - intros H.
    destruct (split_coordPattern searchTerm H) as (a & b & E & Ha & Hb & _).
    exists a, b. rewrite !coordinate_literal_lang. auto.
  - intros (a & b & -> & Ha & Hb).
    apply coordinate_literal_lang in Ha, Hb.
    unfold coordPattern_test, coordPattern. apply matches_lang.
    apply lang_seq; [exact Ha|].
    exact (lang_seq (Chr ",") coordinatePart "," b (lang_chr ",") Hb).
Qed.

(** ** The search box *)




Lemma string_app_assoc (a b c : string) :
  ((a ++ b) ++ c = a ++ (b ++ c))%string.
Proof. induction a as [|x a IH]; cbn; [reflexivity|now rewrite IH]. Qed.











(** ** The step indicator *)

Lemma StepIndicator_items (currentStep : Z) (titles : list string) :
  StepIndicator currentStep titles
  = map_index (step_item currentStep (Z.of_nat (List.length titles)))
              0 titles.
Proof. reflexivity. Qed.

Lemma step_items_after (cs total : Z) (l : list string) :
  forall i : nat,
    cs < Z.of_nat i -> Z.of_nat (i + List.length l) = total ->
    map item_status (map_index (step_item cs total) i l)
    = repeat step_pending (List.length l)
    /\ map item_active (map_index (step_item cs total) i l)
       = repeat false (List.length l)
    /\ map item_connector (map_index (step_item cs total) i l)
       = match l with
         | [] => []
         | _ :: l' => (repeat (Some step_connector_pending) (List.length l')
                       ++ [None])%list
         end.
Proof.
  induction l as [|x l IH]; intros i Hi Ht; [repeat split|].
  cbn [map_index map List.length repeat].
  destruct (IH (S i)) as (Hs & Ha & Hc);
    [lia|cbn [List.length] in Ht; lia|].
  rewrite Hs, Ha, Hc. cbn [step_item item_status item_active item_connector].
  cbn [List.length] in Ht.
  destruct (Z.ltb_spec (Z.of_nat i) cs); [lia|].
  destruct (Z.eqb_spec (Z.of_nat i) cs); [lia|].
  repeat split. destruct l as [|y l].
  - cbn [List.length Nat.add] in Ht.
    destruct (Z.ltb_spec (Z.of_nat i) (total - 1)); [lia|reflexivity].
  - cbn [List.length] in Ht.
    destruct (Z.ltb_spec (Z.of_nat i) (total - 1)); [|lia]. reflexivity.
Qed.

Lemma step_items_from (k : nat) (total : Z) (l : list string) :
  forall i : nat,
    (i <= k)%nat -> (k < i + List.length l)%nat ->
    Z.of_nat (i + List.length l) = total ->
    map item_status (map_index (step_item (Z.of_nat k) total) i l)
    = (repeat step_completed (k - i)
       ++ step_current :: repeat step_pending (i + List.length l - k - 1))%list
    /\ map item_active (map_index (step_item (Z.of_nat k) total) i l)
       = (repeat false (k - i)
          ++ true :: repeat false (i + List.length l - k - 1))%list
    /\ map item_connector (map_index (step_item (Z.of_nat k) total) i l)
       = (repeat (Some step_connector_completed) (k - i)
          ++ repeat (Some step_connector_pending) (i + List.length l - k - 1)
          ++ [None])%list.
Proof.
  induction l as [|x l IH]; intros i Hik Hk Ht; cbn [List.length] in *;
    [lia|].
  cbn [map_index map].
  cbn [step_item item_status item_active item_connector].
  destruct (Nat.eq_dec i k) as [->|Hne].
  - destruct (step_items_after (Z.of_nat k) total l (S k)) as (Hs & Ha & Hc);
      [lia|lia|].
    rewrite Hs, Ha, Hc, Nat.sub_diag, Z.ltb_irrefl, Z.eqb_refl.
    replace (k + S (List.length l) - k - 1)%nat with (List.length l) by lia.
    cbn [repeat app]. repeat split.
    destruct l as [|y l]; cbn [List.length] in *.
    + destruct (Z.ltb_spec (Z.of_nat k) (total - 1)); [lia|reflexivity].
    + destruct (Z.ltb_spec (Z.of_nat k) (total - 1)); [|lia].
      reflexivity.
  - destruct (IH (S i)) as (Hs & Ha & Hc); [lia|lia|lia|].
    rewrite Hs, Ha, Hc.
    replace (k - i)%nat with (S (k - S i)) by lia.
    replace (i + S (List.length l) - k - 1)%nat
      with (S i + List.length l - k - 1)%nat by lia.
    destruct (Z.ltb_spec (Z.of_nat i) (Z.of_nat k)); [|lia].
    destruct (Z.eqb_spec (Z.of_nat i) (Z.of_nat k)); [lia|].
    destruct (Z.ltb_spec (Z.of_nat i) (total - 1)); [|lia].
    repeat split.
Qed.

Lemma map_index_titles (cs total : Z) (l : list string) :
  forall i, map item_title (map_index (step_item cs total) i l) = l.
Proof.
  induction l as [|x l IH]; intros i; cbn; [reflexivity|now rewrite IH].
Qed.

(** X12.  For any list of steps and a current step [k] within it, the
    indicator shows the titles in order, marks the [k] steps before the
    current one completed, the current one current and active, and the
    rest pending; every step but the last is followed by a connector,
    completed before the current step and pending from it on.  In every
    reachable state of the wizard exactly one of its three steps is
    active. *)
Theorem X12_step_indicator_marks_one_current_step
  (titles : list string) (k : nat) (Hk : (k < List.length titles)%nat)
  (m : Machine) (Hm : reachable m) :
  let n := List.length titles in
  let items := StepIndicator (Z.of_nat k) titles in
  map item_title items = titles
  /\ map item_status items
     = (repeat step_completed k
        ++ step_current :: repeat step_pending (n - k - 1))%list
  /\ map item_active items
     = (repeat false k ++ true :: repeat false (n - k - 1))%list
  /\ map item_connector items
     = (repeat (Some step_connector_completed) k
        ++ repeat (Some step_connector_pending) (n - k - 1)
        ++ [None])%list
  /\ List.length
       (filter item_active (StepIndicator (currentStep (ui m)) steps))
     = 1%nat.
Proof.
  intros n items. unfold items. rewrite StepIndicator_items.
  destruct (step_items_from k (Z.of_nat n) titles 0%nat)
    as (Hs & Ha & Hc); [lia|fold n; lia|reflexivity|].
  rewrite Nat.sub_0_r in Hs, Ha, Hc. cbn [Nat.add] in Hs, Ha, Hc.
  fold n in Hs, Ha, Hc.
  split; [apply map_index_titles|].
  split; [exact Hs|]. split; [exact Ha|]. split; [exact Hc|].
  destruct (reachable_step_in_range m Hm) as [-> | [-> | ->]]; reflexivity.
Qed.

Lemma X12_step_indicator_witness :
  map item_status (StepIndicator 1 steps)
  = [step_completed; step_current; step_pending]
  /\ map item_connector (StepIndicator 1 steps)
     = [Some step_connector_completed; Some step_connector_pending; None].
Proof.
  assert (Hk : (1 < List.length steps)%nat) by (cbn; lia).
  pose proof (X12_step_indicator_marks_one_current_step
                steps 1%nat Hk initialMachine reachable_initial) as H.
  exact (conj (proj1 (proj2 H)) (proj1 (proj2 (proj2 (proj2 H))))).
Defined.

(** ** The instruction overlay *)

(** X13.  In every reachable state the overlay has a text to show, and
    the two interaction modes have different texts on every step.  For a
    step outside the table the lookup yields nothing instead of
    throwing. *)
Theorem X13_instruction_text_exists_in_every_reachable_state
  (m : Machine) (Hm : reachable m) :
  (exists text,
     InstructionOverlay_text (currentStep (ui m)) (interactionMode (ui m))
     = Some text /\ text <> "")
  /\ InstructionOverlay_text (currentStep (ui m)) drag
     <> InstructionOverlay_text (currentStep (ui m)) center_mode
  /\ (forall step mode,
        step < 0 \/ 2 < step -> InstructionOverlay_text step mode = None).
Proof.
  split; [|split].
  - destruct (reachable_step_in_range m Hm) as [-> | [-> | ->]];
      destruct (interactionMode (ui m));
      (eexists; split; [reflexivity|discriminate]).
  - destruct (reachable_step_in_range m Hm) as [-> | [-> | ->]];
      discriminate.
  - intros step mode Hout. unfold InstructionOverlay_text, instructions.
    destruct (Z.eqb_spec step 0); [lia|].
    destruct (Z.eqb_spec step 1); [lia|].
    destruct (Z.eqb_spec step 2); [lia|reflexivity].
Qed.

Lemma X13_instruction_text_witness :
  exists text,
    InstructionOverlay_text (currentStep initialState)
                            (interactionMode initialState) = Some text
    /\ text <> "".
Proof.
  exact (proj1 (X13_instruction_text_exists_in_every_reachable_state
                  initialMachine reachable_initial)).
Defined.

(** ** Dragging the tooltip *)

Lemma tooltip_run_app (es1 es2 : list PointerEvent) (t : TooltipState) :
  tooltip_run (es1 ++ es2) t = tooltip_run es2 (tooltip_run es1 t).
Proof. apply fold_left_app. Qed.

Lemma tooltip_grip_kept (es : list PointerEvent) :
  forallb keeps_the_grip es = true ->
  forall t,
    listeners (tooltip_run es t) = listeners t
    /\ isDragging (tooltip_run es t) = isDragging t.
Proof.
  induction es as [|e es IH]; cbn [forallb]; intros H t; [split; reflexivity|].
  apply andb_true_iff in H as [He Hes].
  change (tooltip_run (e :: es) t) with (tooltip_run es (tooltip_step t e)).
  destruct (IH Hes (tooltip_step t e)) as [-> ->].
  destruct e as [| | |[point|]]; try discriminate He; split; reflexivity.
Qed.

(** X14.  A drag of the tooltip is relative to the grip: after a press at
    [(x0, y0)] on a tooltip that is not being dragged, any sequence of
    pointer moves and map view changes, and a final move to [(x, y)], the
    tooltip is at its position at the press plus [(x - x0, y - y0)],
    whatever happened in between.  Releasing keeps that position, ends
    the drag and removes the listeners, so that later moves do nothing.
    Without a press a move does nothing, and a tooltip that is not
    draggable ignores the press. *)
Theorem X14_tooltip_drag_is_relative_to_the_press
  (t : TooltipState) (Hidle : listeners t = [])
  (x0 y0 x y : Z) (between : list PointerEvent)
  (Hbetween : forallb keeps_the_grip between = true) :
  let dragged :=
    tooltip_run ((GripperMouseDown x0 y0 :: between)
                 ++ [DocumentMouseMove x y]) t in
  let released := tooltip_step dragged DocumentMouseUp in
  tooltipPosition dragged
  = {| px := px (tooltipPosition t) + (x - x0);
       py := py (tooltipPosition t) + (y - y0) |}
  /\ isDragging dragged = true
  /\ tooltipPosition released = tooltipPosition dragged
  /\ isDragging released = false
  /\ listeners released = []
  /\ (forall x' y', tooltip_step released (DocumentMouseMove x' y') = released)
  /\ (forall x' y', tooltip_step t (DocumentMouseMove x' y') = t)
  /\ handleMouseDown false x0 y0 t = t.
Proof.
  intros dragged released.
  set (pressed := tooltip_step t (GripperMouseDown x0 y0)).
  assert (Hp : listeners pressed
               = [{| startX := x0; startY := y0;
                     startPosition := tooltipPosition t |}]
               /\ isDragging pressed = true).
  { unfold pressed. cbn. rewrite Hidle. split; reflexivity. }
  destruct (tooltip_grip_kept between Hbetween pressed) as [Hl Hd].
  destruct Hp as [Hpl Hpd]. rewrite Hpl in Hl. rewrite Hpd in Hd.
  assert (Hdragged : dragged
            = document_mousemove x y (tooltip_run between pressed)).
  { unfold dragged. rewrite tooltip_run_app. reflexivity. }
  assert (Hpos : tooltipPosition dragged
                 = {| px := px (tooltipPosition t) + (x - x0);
                      py := py (tooltipPosition t) + (y - y0) |}).
  { rewrite Hdragged. unfold document_mousemove. cbn [tooltipPosition].
    rewrite Hl. reflexivity. }
  assert (Hrel : released
                 = {| tooltipPosition := tooltipPosition dragged;
                      isDragging := false; listeners := [] |}).
  { unfold released. cbn [tooltip_step]. unfold document_mouseup.
    rewrite Hdragged. cbn [document_mousemove listeners]. rewrite Hl.
    reflexivity. }
  split; [exact Hpos|].
  split; [rewrite Hdragged; cbn; exact Hd|].
  rewrite Hrel. cbn [tooltipPosition isDragging listeners].
  repeat split.
  intros x' y'. cbn. unfold document_mousemove. rewrite Hidle.
  destruct t; cbn in *. now subst.
Qed.

Lemma X14_tooltip_drag_witness :
  tooltipPosition
    (tooltip_run [GripperMouseDown 100 50; DocumentMouseMove 130 40;
                  MapViewChange (Some {| px := 7; py := 9 |});
                  DocumentMouseMove 110 80] initialTooltip)
  = {| px := 10; py := 30 |}.
Proof.
  exact (proj1 (X14_tooltip_drag_is_relative_to_the_press
                  initialTooltip eq_refl 100 50 110 80
                  [DocumentMouseMove 130 40;
                   MapViewChange (Some {| px := 7; py := 9 |})]
                  eq_refl)).
Defined.

(** ** The results card of [App] *)

Lemma step_result (m : Machine) (e : Event) (result : WizardResult) :
  snd (step m e) = Some result ->
  result = result_of (ui m) /\ 2 <= currentStep (ui m).
Proof.
  destruct e; cbn [step snd]; try discriminate.
  - destruct (SearchInput_handleSubmit searchValue); discriminate.
  - unfold handleNext, steps_length.
    destruct (Z.ltb_spec (currentStep (ui m)) (3 - 1)); cbn [snd];
      [discriminate|].
    intros [= <-]. split; [reflexivity|lia].
  - destruct (nth_error (pending m) i); discriminate.
Qed.

Lemma app_invariant_step (a : AppState) (e : AppEvent) :
  app_invariant a -> app_invariant (app_step a e).
Proof.
  destruct a as [m|r], e as [we|]; cbn [app_step app_invariant]; auto.
  - intros Hm. destruct (enabled m we) eqn:He; [|exact Hm].
    pose proof (reachable_step m we Hm He) as Hm'.
    pose proof (step_result m we) as Hres.
    destruct (step m we) as [m' [result|]]; cbn [fst snd] in *.
    + destruct (Hres result eq_refl) as [-> H2].
      exists m. split; [exact Hm|]. split; [|reflexivity].
      destruct (reachable_step_in_range m Hm) as [H|[H|H]]; lia.
    + exact Hm'.
  - intros _. exact reachable_initial.
Qed.

Lemma app_reachable_invariant (a : AppState) :
  app_reachable a -> app_invariant a.
Proof.
  induction 1 as [|a e _ IH]; [exact reachable_initial|].
  now apply app_invariant_step.
Qed.

Lemma app_run_reachable (es : list AppEvent) :
  forall a, app_reachable a -> app_reachable (app_run es a).
Proof.
  induction es as [|e es IH]; intros a Ha; [exact Ha|].
  apply (IH (app_step a e)). now apply app_reachable_step.
Qed.

Lemma coordinateText_has_comma (la ln : number) (s : string) :
  string_forall (fun c => negb (Ascii.eqb c ",")) s = true ->
  coordinateText la ln <> s.
Proof.
  intros Hs E. rewrite <- E in Hs. unfold coordinateText in Hs.
  rewrite !string_forall_app in Hs. cbn in Hs.
  now rewrite andb_false_r in Hs.
Qed.

(** X15.  Whatever the user did, a results card that [App] shows comes
    from a wizard that finished on step 2: the result has a project
    location and an extent centre, its radius is 1000, its rotation is
    the binary64 number 0 without a building.  So the card never says
    "Not set": its extent row reads "Center: lat, lng, Radius: 1000m", and
    its building row says "Not placed" exactly when no building was
    placed.  A wizard that [App] shows, also after "Start New Wizard", is
    in a state reachable from the initial one. *)
Theorem X15_results_card_is_complete
  (a : AppState) (Ha : app_reachable a) :
  match a with
  | ShowWizard m => reachable m
  | ShowResults r =>
      (exists la ln, r_projectLocation r = Some (la, ln)
         /\ row_projectLocation (resultsCard r) = coordinateText la ln)
      /\ row_projectLocation (resultsCard r) <> "Not set"
      /\ (exists la ln,
            r_projectExtent r = {| center := Some (la, ln); radius := 1000 |}
            /\ row_projectExtent (resultsCard r)
               = "Center: " ++ toFixed la 6 ++ ", " ++ toFixed ln 6
                 ++ ", Radius: 1000m")
      /\ (row_buildingLocation (resultsCard r) = "Not placed"
          <-> r_buildingLocation r = None)
      /\ (r_buildingLocation r = None ->
          r_buildingRotation r = binary64_of_Z 0)
  end.
Proof.
  pose proof (app_reachable_invariant a Ha) as Hinv.
  destruct a as [m|r]; [exact Hinv|].
  destruct Hinv as (m & Hm & H2 & ->).
  destruct (reachable_invariant m Hm) as [_ Hr _ Hl Hun _].
  destruct Hl as [Hp Hc]; [lia|].
  unfold resultsCard, result_of.
  cbn [r_projectLocation r_projectExtent r_buildingLocation
       r_buildingRotation r_interactionMode row_projectLocation
       row_projectExtent row_buildingLocation row_buildingRotation].
  destruct (projectLocation (ui m)) as [[pla pln]|]; [|contradiction].
  destruct (projectExtent (ui m)) as [[[cla cln]|] rad];
    cbn [center radius] in *; [|contradiction].
  subst rad.
  split; [now exists pla, pln|].
  split; [now apply coordinateText_has_comma|].
  split; [now exists cla, cln|].
  split; [|exact Hun].
  destruct (buildingLocation (ui m)) as [[bla bln]|].
  - split; [|discriminate]. intros E. exfalso.
    now apply (coordinateText_has_comma bla bln "Not placed").
  - split; reflexivity.
Qed.

Lemma X15_results_card_witness :
  exists r,
    app_run [InWizard (MapClick sample_click); InWizard NextClick;
             InWizard NextClick; InWizard NextClick] initialApp
    = ShowResults r
    /\ row_projectLocation (resultsCard r) <> "Not set"
    /\ (row_buildingLocation (resultsCard r) = "Not placed"
        <-> r_buildingLocation r = None)
    /\ r_buildingLocation r = None
    /\ r_buildingRotation r = binary64_of_Z 0.
Proof.
  pose proof (X15_results_card_is_complete _
                (app_run_reachable
                   [InWizard (MapClick sample_click); InWizard NextClick;
                    InWizard NextClick; InWizard NextClick]
                   initialApp app_reachable_initial)) as H.
  destruct (app_run _ initialApp) as [m|r] eqn:E;
    [vm_compute in E; discriminate|].
  exists r. split; [reflexivity|].
  assert (Hb : r_buildingLocation r = None)
    by (vm_compute in E; inversion E; subst r; reflexivity).
  split; [exact (proj1 (proj2 H))|].
  split; [exact (proj1 (proj2 (proj2 (proj2 H))))|].
  split; [exact Hb|].
  exact (proj2 (proj2 (proj2 (proj2 H))) Hb).
Defined.
